(** * The streaming chat decoder and the ghost-suggestion scheduler

    A shallow embedding of two pieces of the Membrane front end:

    - [APIService.streamChat] (services/api.ts): the async generator that
      reads a server-sent-event response chunk by chunk and yields the
      [content] of every [data: ] frame;
    - [DocumentEditor] (features/editor/components/DocumentEditor.tsx): the
      [handleInput] / [handleKeyDown] handlers with the debounce timer that
      drives the inline ghost suggestion.

    JavaScript strings are sequences of UTF-16 code units; they are modelled
    as lists of code units.  The platform functions the code calls
    ([String.prototype.split], [startsWith], [slice], [trim], [JSON.parse],
    [setTimeout]) are modelled next to the code that uses them. *)

From Stdlib Require Import List NArith ZArith Bool Ascii String Lia.
Import ListNotations.

Local Open Scope N_scope.
Set Warnings "-register-all".

(** ** JavaScript strings *)

Definition jsstring := list N.

(** The string with the code units of an ASCII literal. *)
Definition str (s : string) : jsstring :=
  map N_of_ascii (list_ascii_of_string s).

Definition LF : N := 10.
Definition QUOTE : N := 34.

Fixpoint jsstring_eqb (a b : jsstring) : bool :=
  match a, b with
  | [], [] => true
  | x :: a', y :: b' => (x =? y) && jsstring_eqb a' b'
  | _, _ => false
  end.

(** [s.startsWith(prefix)] *)
Fixpoint startsWith (s prefix : jsstring) {struct prefix} : bool :=
  match prefix, s with
  | [], _ => true
  | p :: prefix', c :: s' => (c =? p) && startsWith s' prefix'
  | _ :: _, [] => false
  end.

(** [s.slice(n)] for a non-negative [n] *)
Definition slice (n : nat) (s : jsstring) : jsstring := skipn n s.

(** [s.split(sep)] for a separator of one code unit: the pieces between the
    occurrences of [sep]; a string without [sep] (the empty one too) gives
    one piece. *)
Fixpoint js_split (sep : N) (s : jsstring) : list jsstring :=
  match s with
  | [] => [[]]
  | c :: s' =>
      if c =? sep then [] :: js_split sep s'
      else match js_split sep s' with
           | piece :: pieces => (c :: piece) :: pieces
           | [] => [[c]]
           end
  end.

(** White space and line terminators, as [String.prototype.trim] strips
    them. *)
Definition is_trim_space (c : N) : bool :=
  existsb (N.eqb c)
    [9; 10; 11; 12; 13; 32; 160; 5760; 8192; 8193; 8194; 8195; 8196; 8197;
     8198; 8199; 8200; 8201; 8202; 8232; 8233; 8239; 8287; 12288; 65279].

Fixpoint trimStart (s : jsstring) : jsstring :=
  match s with
  | c :: s' => if is_trim_space c then trimStart s' else s
  | [] => []
  end.

Definition trim (s : jsstring) : jsstring :=
  rev (trimStart (rev (trimStart s))).

(** ** JSON values and [JSON.parse] *)

Module JSON.

(** A number keeps the exact value of its literal, [mantissa * 10^exponent];
    the only thing the code asks of a number is whether it is zero. *)
Inductive value :=
| Undefined
| Null
| Bool (b : bool)
| Number (mantissa exponent : Z)
| String (s : jsstring)
| Array (elements : list value)
| Object (properties : list (jsstring * value)).

Definition is_ws (c : N) : bool :=
  (c =? 9) || (c =? 10) || (c =? 13) || (c =? 32).

Fixpoint skip_ws (s : jsstring) : jsstring :=
  match s with
  | c :: s' => if is_ws c then skip_ws s' else s
  | [] => []
  end.

Definition digit (c : N) : option Z :=
  if (48 <=? c) && (c <=? 57) then Some (Z.of_N (c - 48)) else None.

Definition hex (c : N) : option N :=
  if (48 <=? c) && (c <=? 57) then Some (c - 48)
  else if (65 <=? c) && (c <=? 70) then Some (c - 55)
  else if (97 <=? c) && (c <=? 102) then Some (c - 87)
  else None.

(** The digits at the front of [s], appended to the decimal number [acc];
    [n] counts them. *)
Fixpoint digits (s : jsstring) (acc : Z) (n : nat) : Z * nat * jsstring :=
  match s with
  | c :: s' =>
      match digit c with
      | Some d => digits s' (10 * acc + d)%Z (S n)
      | None => (acc, n, s)
      end
  | [] => (acc, n, [])
  end.

(** int: [0] or a digit from 1 to 9 followed by digits. *)
Definition parse_int (s : jsstring) : option (Z * jsstring) :=
  match s with
  | c :: s' =>
      if c =? 48 then Some (0%Z, s')
      else match digit c with
           | Some _ => let '(m, _, r) := digits s 0 0 in Some (m, r)
           | None => None
           end
  | [] => None
  end.

(** frac: nothing, or [.] and at least one digit.  The result is the
    mantissa with the fraction digits appended and their number. *)
Definition parse_frac (m : Z) (s : jsstring) : option (Z * nat * jsstring) :=
  match s with
  | c :: s' =>
      if c =? 46 then
        match digits s' m 0 with
        | (_, O, _) => None
        | r => Some r
        end
      else Some (m, O, s)
  | [] => Some (m, O, [])
  end.

(** exp: nothing, or [e] or [E], an optional sign and at least one digit. *)
Definition parse_exp (s : jsstring) : option (Z * jsstring) :=
  match s with
  | c :: s' =>
      if (c =? 101) || (c =? 69) then
        let '(neg, s1) :=
          match s' with
          | sg :: s'' =>
              if sg =? 45 then (true, s'')
              else if sg =? 43 then (false, s'') else (false, s')
          | [] => (false, [])
          end in
        match digits s1 0 0 with
        | (_, O, _) => None
        | (e, _, r) => Some (if neg then (- e)%Z else e, r)
        end
      else Some (0%Z, s)
  | [] => Some (0%Z, [])
  end.

Definition parse_number (s : jsstring) : option (value * jsstring) :=
  let '(neg, s0) :=
    match s with
    | c :: s' => if c =? 45 then (true, s') else (false, s)
    | [] => (false, [])
    end in
  match parse_int s0 with
  | None => None
  | Some (ip, s1) =>
      match parse_frac ip s1 with
      | None => None
      | Some (m, fl, s2) =>
          match parse_exp s2 with
          | None => None
          | Some (e, s3) =>
              Some (Number (if neg then (- m)%Z else m) (e - Z.of_nat fl), s3)
          end
      end
  end.

(** The single-character escapes after a backslash. *)
Definition unescape (c : N) : option N :=
  if c =? 34 then Some 34
  else if c =? 92 then Some 92
  else if c =? 47 then Some 47
  else if c =? 98 then Some 8
  else if c =? 102 then Some 12
  else if c =? 110 then Some 10
  else if c =? 114 then Some 13
  else if c =? 116 then Some 9
  else None.

(** The characters of a string after its opening quote, up to and with the
    closing quote.  Control characters below U+0020 are refused. *)
Fixpoint parse_chars (s : jsstring) : option (jsstring * jsstring) :=
  match s with
  | [] => None
  | c :: s' =>
      if c =? 34 then Some ([], s')
      else if c =? 92 then
        match s' with
        | [] => None
        | e :: s'' =>
            if e =? 117 then
              match s'' with
              | h1 :: h2 :: h3 :: h4 :: s3 =>
                  match hex h1, hex h2, hex h3, hex h4 with
                  | Some a, Some b, Some c', Some d =>
                      match parse_chars s3 with
                      | Some (r, rest) =>
                          Some (4096 * a + 256 * b + 16 * c' + d :: r, rest)
                      | None => None
                      end
                  | _, _, _, _ => None
                  end
              | _ => None
              end
            else
              match unescape e with
              | Some u =>
                  match parse_chars s'' with
                  | Some (r, rest) => Some (u :: r, rest)
                  | None => None
                  end
              | None => None
              end
        end
      else if c <? 32 then None
      else
        match parse_chars s' with
        | Some (r, rest) => Some (c :: r, rest)
        | None => None
        end
  end.

Definition starts (lit : string) (s : jsstring) : option jsstring :=
  if startsWith s (str lit) then Some (skipn (List.length (str lit)) s) else None.

(** One value at the front of [s] (no leading white space), and what
    follows it.  A nested call takes one unit of [fuel]; between two of
    them on the same text there is at most one that consumed nothing, so
    [fuel] above twice the length of [s] is never used up. *)
Fixpoint parse_value (fuel : nat) (s : jsstring) {struct fuel}
  : option (value * jsstring) :=
  match fuel with
  | O => None
  | S fuel' =>
      match s with
      | [] => None
      | c :: s' =>
          if c =? 123 then
            match skip_ws s' with
            | c1 :: r1 =>
                if c1 =? 125 then Some (Object [], r1)
                else
                  match parse_members fuel' (c1 :: r1) with
                  | Some (ms, r) => Some (Object ms, r)
                  | None => None
                  end
            | [] => None
            end
          else if c =? 91 then
            match skip_ws s' with
            | c1 :: r1 =>
                if c1 =? 93 then Some (Array [], r1)
                else
                  match parse_elements fuel' (c1 :: r1) with
                  | Some (es, r) => Some (Array es, r)
                  | None => None
                  end
            | [] => None
            end
          else if c =? 34 then
            match parse_chars s' with
            | Some (t, r) => Some (String t, r)
            | None => None
            end
          else if c =? 116 then
            match starts "true" s with
            | Some r => Some (Bool true, r)
            | None => None
            end
          else if c =? 102 then
            match starts "false" s with
            | Some r => Some (Bool false, r)
            | None => None
            end
          else if c =? 110 then
            match starts "null" s with
            | Some r => Some (Null, r)
            | None => None
            end
          else parse_number s
      end
  end

(** [string : value] pairs separated by commas, up to and with the closing
    brace; [s] starts at the first key. *)
with parse_members (fuel : nat) (s : jsstring) {struct fuel}
  : option (list (jsstring * value) * jsstring) :=
  match fuel with
  | O => None
  | S fuel' =>
      match s with
      | [] => None
      | c :: s1 =>
          if c =? 34 then
            match parse_chars s1 with
            | None => None
            | Some (k, s2) =>
                match skip_ws s2 with
                | [] => None
                | c3 :: s3 =>
                    if c3 =? 58 then
                      match parse_value fuel' (skip_ws s3) with
                      | None => None
                      | Some (v, s4) =>
                          match skip_ws s4 with
                          | [] => None
                          | c5 :: s5 =>
                              if c5 =? 125 then Some ([(k, v)], s5)
                              else if c5 =? 44 then
                                match parse_members fuel' (skip_ws s5) with
                                | Some (ms, r) => Some ((k, v) :: ms, r)
                                | None => None
                                end
                              else None
                          end
                      end
                    else None
                end
            end
          else None
      end
  end

(** Values separated by commas, up to and with the closing bracket. *)
with parse_elements (fuel : nat) (s : jsstring) {struct fuel}
  : option (list value * jsstring) :=
  match fuel with
  | O => None
  | S fuel' =>
      match parse_value fuel' s with
      | None => None
      | Some (v, s1) =>
          match skip_ws s1 with
          | [] => None
          | c2 :: s2 =>
              if c2 =? 93 then Some ([v], s2)
              else if c2 =? 44 then
                match parse_elements fuel' (skip_ws s2) with
                | Some (es, r) => Some (v :: es, r)
                | None => None
                end
              else None
          end
      end
  end.

(** [JSON.parse(s)]: one value between optional white space and nothing
    else; [None] stands for the SyntaxError it throws otherwise. *)
Definition parse (s : jsstring) : option value :=
  match parse_value (S (S (2 * List.length s)%nat)) (skip_ws s) with
  | Some (v, r) =>
      match skip_ws r with
      | [] => Some v
      | _ :: _ => None
      end
  | None => None
  end.

(** The last property of that name wins, as [JSON.parse] defines the
    properties in source order. *)
Fixpoint lookup (key : jsstring) (props : list (jsstring * value))
  : option value :=
  match props with
  | [] => None
  | (k, v) :: props' =>
      match lookup key props' with
      | Some v' => Some v'
      | None => if jsstring_eqb k key then Some v else None
      end
  end.

(** [parsed.content]: [None] stands for the TypeError of a property read on
    [null]; primitives and arrays have no such property. *)
Definition get_content (parsed : value) : option value :=
  match parsed with
  | Null | Undefined => None
  | Object props =>
      match lookup (str "content") props with
      | Some v => Some v
      | None => Some Undefined
      end
  | _ => Some Undefined
  end.

(** Whether the literal [m * 10^e] denotes the Number zero: it is zero, or
    so small that it rounds to zero in double precision (at most half the
    least subnormal, 2^-1075). *)
Definition number_is_zero (m e : Z) : bool :=
  ((m =? 0) || ((e <? 0) && (Z.abs m * 2 ^ 1075 <=? 10 ^ (- e))))%Z.

(** ToBoolean *)
Definition truthy (v : value) : bool :=
  match v with
  | Undefined | Null => false
  | Bool b => b
  | Number m e => negb (number_is_zero m e)
  | String s => negb (jsstring_eqb s [])
  | Array _ | Object _ => true
  end.

End JSON.

(** ** [streamChat] *)

Module Stream.

(** What one [reader.read()] settles to before the end of the input: a
    chunk, given here as the text [decoder.decode(value)] makes of its
    bytes, or a rejection.  The decoder is called without the [stream]
    option, so every chunk is decoded by itself; for ASCII bytes the text
    has the bytes as its code units. *)
Inductive ReadResult :=
| Chunk (decoded : jsstring)
| ReadRejected (reason : jsstring).

(** What [fetch] resolves to.  [body], when the response has one, holds
    the results the successive reads deliver; after the last of them the
    reader reports [done]. *)
Record Response := {
  ok : bool;
  statusText : jsstring;
  body : option (list ReadResult)
}.

(** What the generator throws: an [Error] it made, or the reason of a
    rejected read. *)
Inductive Thrown :=
| Error (message : jsstring)
| Rejection (reason : jsstring).

Inductive Completion :=
| Returned
| Threw (e : Thrown).

(** A whole run of the generator, for a consumer that iterates it to its
    end: the values it yielded in order, how it completed, and the read
    results it left in the reader. *)
Record Run := {
  yielded : list JSON.value;
  completion : Completion;
  unread : list ReadResult
}.

Definition prefix : jsstring := str "data: ".
Definition sentinel : jsstring := str "[DONE]".

(** The body of the [for] loop on one line. *)
Inductive LineEffect :=
| Skip
| Yield (content : JSON.value)
| Return.

Definition decode_line (line : jsstring) : LineEffect :=
  if startsWith line prefix then
    let data := slice 6 line in
    if jsstring_eqb data sentinel then Return
    else
      match JSON.parse data with
      | Some parsed =>
          match JSON.get_content parsed with
          | Some content =>
              if JSON.truthy content then Yield content else Skip
          | None => Skip
          end
      | None => Skip
      end
  else Skip.

(** [for (const line of lines)]: the values yielded, and whether the loop
    left the generator through [return]. *)
Fixpoint for_lines (lines : list jsstring) : list JSON.value * bool :=
  match lines with
  | [] => ([], false)
  | line :: lines' =>
      match decode_line line with
      | Return => ([], true)
      | Skip => for_lines lines'
      | Yield content =>
          let '(ys, returned) := for_lines lines' in (content :: ys, returned)
      end
  end.

(** [while (true)]: the end of the list of read results is [done]. *)
Fixpoint while_read (reader : list ReadResult) : Run :=
  match reader with
  | [] => {| yielded := []; completion := Returned; unread := [] |}
  | ReadRejected reason :: reader' =>
      {| yielded := []; completion := Threw (Rejection reason);
         unread := reader' |}
  | Chunk chunk :: reader' =>
      let '(ys, returned) := for_lines (js_split LF chunk) in
      if returned then
        {| yielded := ys; completion := Returned; unread := reader' |}
      else
        let run := while_read reader' in
        {| yielded := ys ++ yielded run; completion := completion run;
           unread := unread run |}
  end.

Definition streamChat (response : Response) : Run :=
  if negb (ok response) then
    {| yielded := [];
       completion :=
         Threw (Error (str "Stream error: " ++ statusText response));
       unread := match body response with Some r => r | None => [] end |}
  else
    match body response with
    | None =>
        {| yielded := [];
           completion := Threw (Error (str "No reader available"));
           unread := [] |}
    | Some reader => while_read reader
    end.

(** *** Wire text of the frames the server sends *)

Definition quoted (s : jsstring) : jsstring := QUOTE :: s ++ [QUOTE].

(** The text of an object with the one property [content], whose value
    is written [lit]. *)
Definition content_literal (lit : jsstring) : jsstring :=
  str "{" ++ quoted (str "content") ++ str ":" ++ lit ++ str "}".

(** The same for a string; [s] is the text between the quotes. *)
Definition content_json (s : jsstring) : jsstring :=
  content_literal (quoted s).

(** [data: payload] and the blank line that ends the event. *)
Definition frame (payload : jsstring) : jsstring :=
  prefix ++ payload ++ [LF; LF].

Definition succeeded (chunks : list jsstring) : Response :=
  {| ok := true; statusText := str "OK"; body := Some (map Chunk chunks) |}.

(** *** Notions used to state the properties *)

(** The lines the loop sees, chunk after chunk. *)
Definition lines_of (chunks : list jsstring) : list jsstring :=
  flat_map (js_split LF) chunks.

(** The line is a [data: ] frame with the sentinel as its payload. *)
Definition is_done (line : jsstring) : bool :=
  startsWith line prefix && jsstring_eqb (slice 6 line) sentinel.

Definition ends_with_LF (chunk : jsstring) : bool :=
  match rev chunk with
  | [] => true
  | c :: _ => c =? LF
  end.

(** Every chunk but the last is empty or ends with a line feed: the text
    is divided only where a line ends. *)
Fixpoint line_aligned (chunks : list jsstring) : bool :=
  match chunks with
  | [] => true
  | [_] => true
  | chunk :: chunks' => ends_with_LF chunk && line_aligned chunks'
  end.

(** The text a payload carries: it has no line feed, parses as JSON, and
    its [content] is a string. *)
Definition text_of (payload : jsstring) : option jsstring :=
  if existsb (N.eqb LF) payload then None
  else
    match JSON.parse payload with
    | Some parsed =>
        match JSON.get_content parsed with
        | Some (JSON.String d) => Some d
        | _ => None
        end
    | None => None
    end.

Definition nonempty (d : jsstring) : bool := negb (jsstring_eqb d []).

(** What a line makes the loop yield. *)
Definition emitted (line : jsstring) : list JSON.value :=
  match decode_line line with
  | Yield content => [content]
  | _ => []
  end.

(** The lines before the first sentinel frame. *)
Fixpoint until_done (lines : list jsstring) : list jsstring :=
  match lines with
  | [] => []
  | line :: lines' => if is_done line then [] else line :: until_done lines'
  end.

(** What a consumer that appends every yielded value to a string ends
    with, when they are strings. *)
Fixpoint concatenation (ys : list JSON.value) : jsstring :=
  match ys with
  | JSON.String d :: ys' => d ++ concatenation ys'
  | _ :: ys' => concatenation ys'
  | [] => []
  end.

End Stream.


(** ** [DocumentEditor]: the ghost-suggestion handlers *)

Module Editor.

Record GhostSuggestion := {
  text : jsstring;
  position : N
}.

(** The argument of [apiService.getGhostSuggestion]. *)
Record SuggestionParams := {
  params_text : jsstring;
  cursorPosition : N;
  params_purpose : jsstring;
  model : jsstring
}.

(** The two closures the component hands to [setTimeout]: the debounced
    callback of [handleInput], which captured [newContent], and the cursor
    move of the Tab branch of [handleKeyDown], which captured
    [newContent.length]. *)
Inductive Callback :=
| GhostCallback (newContent : jsstring)
| CursorToEnd (length : N).

Record Timer := {
  timer_id : N;
  due : N;
  callback : Callback
}.

(** A debounced callback suspended at [await generateGhostSuggestion]: the
    call it issued and the [newContent] and [cursorPos] it holds. *)
Record Pending := {
  request : N;
  newContent : jsstring;
  cursorPos : N
}.

(** The component state ([localContent], [ghostSuggestion], [isComposing],
    [ghostTimeoutRef]), its props, the cursor of the textarea, and the
    environment: the clock, the timers that wait, the requests in flight
    and the log of the suggestion calls issued so far.  The component is
    rendered again between two events, so a handler sees the state the
    event before left. *)
Record State := {
  localContent : jsstring;
  ghostSuggestion : option GhostSuggestion;
  isComposing : bool;
  ghostTimeoutRef : option N;
  purpose : jsstring;
  selectedModel : jsstring;
  selectionStart : N;
  now : N;
  nextTimer : N;
  timers : list Timer;
  pending : list Pending;
  calls : list SuggestionParams
}.

Definition init (content purpose selectedModel : jsstring) : State :=
  {| localContent := content; ghostSuggestion := None; isComposing := false;
     ghostTimeoutRef := None; purpose := purpose;
     selectedModel := selectedModel; selectionStart := 0; now := 0;
     nextTimer := 1; timers := []; pending := []; calls := [] |}.

Definition setLocalContent (c : jsstring) (s : State) : State :=
  {| localContent := c; ghostSuggestion := ghostSuggestion s;
     isComposing := isComposing s; ghostTimeoutRef := ghostTimeoutRef s;
     purpose := purpose s; selectedModel := selectedModel s;
     selectionStart := selectionStart s; now := now s;
     nextTimer := nextTimer s; timers := timers s; pending := pending s;
     calls := calls s |}.

Definition setGhostSuggestion (g : option GhostSuggestion) (s : State)
  : State :=
  {| localContent := localContent s; ghostSuggestion := g;
     isComposing := isComposing s; ghostTimeoutRef := ghostTimeoutRef s;
     purpose := purpose s; selectedModel := selectedModel s;
     selectionStart := selectionStart s; now := now s;
     nextTimer := nextTimer s; timers := timers s; pending := pending s;
     calls := calls s |}.

Definition setIsComposing (b : bool) (s : State) : State :=
  {| localContent := localContent s; ghostSuggestion := ghostSuggestion s;
     isComposing := b; ghostTimeoutRef := ghostTimeoutRef s;
     purpose := purpose s; selectedModel := selectedModel s;
     selectionStart := selectionStart s; now := now s;
     nextTimer := nextTimer s; timers := timers s; pending := pending s;
     calls := calls s |}.

Definition set_ghostTimeoutRef (r : option N) (s : State) : State :=
  {| localContent := localContent s; ghostSuggestion := ghostSuggestion s;
     isComposing := isComposing s; ghostTimeoutRef := r;
     purpose := purpose s; selectedModel := selectedModel s;
     selectionStart := selectionStart s; now := now s;
     nextTimer := nextTimer s; timers := timers s; pending := pending s;
     calls := calls s |}.

Definition set_selectionStart (c : N) (s : State) : State :=
  {| localContent := localContent s; ghostSuggestion := ghostSuggestion s;
     isComposing := isComposing s; ghostTimeoutRef := ghostTimeoutRef s;
     purpose := purpose s; selectedModel := selectedModel s;
     selectionStart := c; now := now s;
     nextTimer := nextTimer s; timers := timers s; pending := pending s;
     calls := calls s |}.

Definition set_now (t : N) (s : State) : State :=
  {| localContent := localContent s; ghostSuggestion := ghostSuggestion s;
     isComposing := isComposing s; ghostTimeoutRef := ghostTimeoutRef s;
     purpose := purpose s; selectedModel := selectedModel s;
     selectionStart := selectionStart s; now := t;
     nextTimer := nextTimer s; timers := timers s; pending := pending s;
     calls := calls s |}.

Definition set_timers (next : N) (ts : list Timer) (s : State) : State :=
  {| localContent := localContent s; ghostSuggestion := ghostSuggestion s;
     isComposing := isComposing s; ghostTimeoutRef := ghostTimeoutRef s;
     purpose := purpose s; selectedModel := selectedModel s;
     selectionStart := selectionStart s; now := now s;
     nextTimer := next; timers := ts; pending := pending s;
     calls := calls s |}.

Definition set_requests (ps : list Pending) (cs : list SuggestionParams)
  (s : State) : State :=
  {| localContent := localContent s; ghostSuggestion := ghostSuggestion s;
     isComposing := isComposing s; ghostTimeoutRef := ghostTimeoutRef s;
     purpose := purpose s; selectedModel := selectedModel s;
     selectionStart := selectionStart s; now := now s;
     nextTimer := nextTimer s; timers := timers s; pending := ps;
     calls := cs |}.

(** *** Timers *)

(** The timers wait in the order in which they come due; one armed later
    with the same due time runs later. *)
Fixpoint enqueue (t : Timer) (ts : list Timer) : list Timer :=
  match ts with
  | [] => [t]
  | t' :: ts' =>
      if due t' <=? due t then t' :: enqueue t ts' else t :: t' :: ts'
  end.

(** [window.setTimeout(callback, delay)]: the id of the timer and the new
    state. *)
Definition setTimeout (cb : Callback) (delay : N) (s : State) : N * State :=
  let id := nextTimer s in
  (id,
   set_timers (id + 1)
     (enqueue {| timer_id := id; due := now s + delay; callback := cb |}
        (timers s)) s).

(** [clearTimeout(id)]: nothing happens when no such timer waits. *)
Definition clearTimeout (id : N) (s : State) : State :=
  set_timers (nextTimer s)
    (filter (fun t => negb (timer_id t =? id)) (timers s)) s.

(** The debounce interval of [handleInput]. *)
Definition debounce : N := 1500.

(** *** The handlers *)

(** [handleInput], for an input event whose target holds [value] with the
    cursor at [cursor]. *)
Definition handleInput (value : jsstring) (cursor : N) (s : State) : State :=
  let s1 := set_selectionStart cursor s in
  let s2 := setLocalContent value s1 in
  let s3 := setGhostSuggestion None s2 in
  let s4 :=
    match ghostTimeoutRef s3 with
    | Some id => if id =? 0 then s3 else clearTimeout id s3
    | None => s3
    end in
  if negb (isComposing s) then
    let '(id, s5) := setTimeout (GhostCallback value) debounce s4 in
    set_ghostTimeoutRef (Some id) s5
  else s4.

(** The debounced callback up to its [await]: it reads the cursor of the
    textarea, and [generateGhostSuggestion] issues the call. *)
Definition ghostCallback (newContent : jsstring) (s : State) : State :=
  let cursorPos := selectionStart s in
  let call :=
    {| params_text := newContent; cursorPosition := cursorPos;
       params_purpose := purpose s; model := selectedModel s |} in
  set_requests
    (pending s ++
     [{| request := N.of_nat (List.length (calls s));
         newContent := newContent; cursorPos := cursorPos |}])
    (calls s ++ [call]) s.

Definition run_callback (cb : Callback) (s : State) : State :=
  match cb with
  | GhostCallback newContent => ghostCallback newContent s
  | CursorToEnd len => set_selectionStart len s
  end.

(** What [apiService.getGhostSuggestion] settles to: a rejection, or the
    [suggestion] of the response (the empty string also stands for a
    missing one, falsy as well). *)
Inductive ApiResult :=
| ApiFailed
| Suggestion (suggestion : jsstring).

(** The rest of [generateGhostSuggestion] once the call has settled. *)
Definition generateGhostSuggestion_result (result : ApiResult)
  (cursorPosition : N) : option GhostSuggestion :=
  match result with
  | Suggestion suggestion =>
      if negb (jsstring_eqb suggestion [])
         && negb (jsstring_eqb (trim suggestion) [])
      then Some {| text := suggestion; position := cursorPosition |}
      else None
  | ApiFailed => None
  end.

(** The debounced callback after its [await]. *)
Definition resume (p : Pending) (result : ApiResult) (s : State) : State :=
  match generateGhostSuggestion_result result (cursorPos p) with
  | Some suggestion =>
      if cursorPos p =? N.of_nat (List.length (newContent p))
      then setGhostSuggestion (Some suggestion) s
      else s
  | None => s
  end.

Inductive Key := Tab | Escape | OtherKey.

Definition handleKeyDown (key : Key) (s : State) : State :=
  let s1 :=
    match key, ghostSuggestion s with
    | Tab, Some g =>
        let newContent := localContent s ++ text g in
        let s' := setGhostSuggestion None (setLocalContent newContent s) in
        snd (setTimeout (CursorToEnd (N.of_nat (List.length newContent))) 0 s')
    | _, _ => s
    end in
  match key, ghostSuggestion s with
  | Escape, Some _ => setGhostSuggestion None s1
  | _, _ => s1
  end.

(** *** The event loop *)

(** What can happen to the component: the events of the textarea
    ([Select] moves the cursor and changes nothing else here), time that
    passes, and the settlement of a suggestion call. *)
Inductive Event :=
| Input (value : jsstring) (cursor : N)
| KeyDown (key : Key)
| Select (cursor : N)
| CompositionStart
| CompositionEnd
| Elapse (ms : N)
| Resolve (request : N) (result : ApiResult).

(** The timers that have come due run in order.  Neither callback arms a
    timer. *)
Definition fire_due (s : State) : State :=
  let '(ready, waiting) :=
    partition (fun t => due t <=? now s) (timers s) in
  fold_left (fun s' t => run_callback (callback t) s') ready
    (set_timers (nextTimer s) waiting s).

Definition step (s : State) (e : Event) : State :=
  match e with
  | Input value cursor => handleInput value cursor s
  | KeyDown key => handleKeyDown key s
  | Select cursor => set_selectionStart cursor s
  | CompositionStart => setIsComposing true s
  | CompositionEnd => setIsComposing false s
  | Elapse ms => fire_due (set_now (now s + ms) s)
  | Resolve r result =>
      match find (fun p => request p =? r) (pending s) with
      | Some p =>
          resume p result
            (set_requests
               (filter (fun p' => negb (request p' =? r)) (pending s))
               (calls s) s)
      | None => s
      end
  end.

Definition run (s : State) (events : list Event) : State :=
  fold_left step events s.

(** *** Notions used to state the properties *)

Definition is_ghost (t : Timer) : bool :=
  match callback t with
  | GhostCallback _ => true
  | CursorToEnd _ => false
  end.

(** The debounce timers that wait. *)
Definition ghost_timers (s : State) : list Timer :=
  filter is_ghost (timers s).

(** The timers that wait have positive ids below the next one, and a
    debounce timer that waits is the one [ghostTimeoutRef] holds. *)
Definition timers_ok (s : State) : Prop :=
  0 < nextTimer s
  /\ forall t, In t (timers s) ->
       0 < timer_id t /\ timer_id t < nextTimer s
       /\ (is_ghost t = true -> ghostTimeoutRef s = Some (timer_id t)).

(** A burst: a first input event, then input events that each follow the
    one before after [gap] milliseconds. *)
Definition burst (first : jsstring * N) (rest : list (N * jsstring * N))
  : list Event :=
  Input (fst first) (snd first)
  :: flat_map (fun '(gap, value, cursor) => [Elapse gap; Input value cursor])
       rest.

Definition last_input (first : jsstring * N) (rest : list (N * jsstring * N))
  : jsstring * N :=
  last (map (fun '(_, value, cursor) => (value, cursor)) rest) first.

(** Every input of the burst but the first comes before the debounce
    interval has passed since the one before. *)
Definition rapid (rest : list (N * jsstring * N)) : bool :=
  forallb (fun '(gap, _, _) => gap <? debounce) rest.

(** The state right after an input event of a burst that began in [s0]:
    one timer waits, armed now for the content of that event; the cursor
    is where the event left it; no call was issued since [s0]. *)
Definition armed (s0 s : State) (value : jsstring) (cursor : N) : Prop :=
  exists id,
    timers s = [{| timer_id := id; due := now s + debounce;
                   callback := GhostCallback value |}]
    /\ ghostTimeoutRef s = Some id /\ 0 < id /\ id < nextTimer s
    /\ selectionStart s = cursor /\ isComposing s = false
    /\ calls s = calls s0 /\ pending s = pending s0
    /\ purpose s = purpose s0 /\ selectedModel s = selectedModel s0.

(** The event is the settlement of request [r]. *)
Definition resolves (r : N) (e : Event) : bool :=
  match e with
  | Resolve r' _ => r' =? r
  | _ => false
  end.

(** The request in flight with number [r], if there is one. *)
Definition in_flight (r : N) (s : State) : option Pending :=
  find (fun p => request p =? r) (pending s).

(** What the settlement of the request of [p] displays: the suggestion,
    when it is not blank and the cursor the callback read was at the end
    of the content it captured; otherwise what was displayed before. *)
Definition displayed_after (p : Pending) (result : ApiResult)
  (before : option GhostSuggestion) : option GhostSuggestion :=
  match result with
  | Suggestion suggestion =>
      if negb (jsstring_eqb (trim suggestion) [])
         && (cursorPos p =? N.of_nat (List.length (newContent p)))
      then Some {| text := suggestion; position := cursorPos p |}
      else before
  | ApiFailed => before
  end.

End Editor.

(** ** Further notions for the stream *)

Module Lines.

Import Stream.

(** [pieces.join(sep)] for a separator of one code unit. *)
Fixpoint join (sep : N) (pieces : list jsstring) : jsstring :=
  match pieces with
  | [] => []
  | [piece] => piece
  | piece :: pieces' => piece ++ sep :: join sep pieces'
  end.

(** The line passes the test [line.startsWith('data: ')]. *)
Definition is_data (line : jsstring) : bool := startsWith line prefix.

Definition CR : N := 13.

(** A frame of a server that ends its lines with CR LF. *)
Definition frame_crlf (payload : jsstring) : jsstring :=
  prefix ++ payload ++ [CR; LF; CR; LF].

End Lines.


(** ** Further notions for the editor *)

Module EditorNotions.

Import Editor.

(** The contents the input events of a history carried. *)
Definition input_values (events : list Event) : list jsstring :=
  flat_map (fun e => match e with
                     | Input value _ => [value]
                     | _ => []
                     end) events.

(** The call failed, or its suggestion holds white space only (the empty
    one too). *)
Definition blank (result : ApiResult) : bool :=
  match result with
  | ApiFailed => true
  | Suggestion suggestion => forallb is_trim_space suggestion
  end.

(** The contents the debounce timers hold and the texts of the calls
    issued are among [V]. *)
Definition from_inputs (V : list jsstring) (s : State) : Prop :=
  (forall t v, In t (timers s) -> callback t = GhostCallback v -> In v V)
  /\ (forall c, In c (calls s) -> In (params_text c) V).

(** The call [c] asked for the content and with the cursor position that
    [p] holds. *)
Definition call_of (p : Pending) (c : SuggestionParams) : Prop :=
  params_text c = newContent p /\ cursorPosition c = cursorPos p.

(** A call was issued for every request in flight; the suggestion
    displayed is not blank and answers a call issued with the cursor at the
    end of its text. *)
Definition requests_ok (s : State) : Prop :=
  (forall p, In p (pending s) -> exists c, In c (calls s) /\ call_of p c)
  /\ (forall g, ghostSuggestion s = Some g ->
        trim (text g) <> []
        /\ exists c, In c (calls s)
                     /\ cursorPosition c = position g
                     /\ N.of_nat (List.length (params_text c)) = position g).

(** The requests in flight were issued: their numbers are below the
    number of calls. *)
Definition pending_ok (s : State) : Prop :=
  forall p, In p (pending s) ->
    request p < N.of_nat (List.length (calls s)).

End EditorNotions.


(** ** The word count of the editor *)

Module Words.

(** [s.split(/\s+/)]: the pieces between the runs of white space; the
    class [\s] holds the characters that [trim] strips.  With [in_gap] the
    text follows white space that has already ended a piece. *)
Fixpoint split_spaces (in_gap : bool) (s : jsstring) : list jsstring :=
  match s with
  | [] => [[]]
  | c :: s' =>
      if is_trim_space c then
        if in_gap then split_spaces true s' else [] :: split_spaces true s'
      else
        match split_spaces false s' with
        | piece :: pieces => (c :: piece) :: pieces
        | [] => [[c]]
        end
  end.

(** [s.split(/\s+/).filter(Boolean)] *)
Definition words (s : jsstring) : list jsstring :=
  filter Stream.nonempty (split_spaces false s).

(** [wordCount] and [charCount] of [DocumentEditor]; [saveDocument] counts
    the words the same way. *)
Definition wordCount (localContent : jsstring) : nat :=
  List.length (words localContent).

Definition charCount (localContent : jsstring) : nat :=
  List.length localContent.

(** A word: not empty, and without white space. *)
Definition is_word (w : jsstring) : bool :=
  Stream.nonempty w && forallb (fun c => negb (is_trim_space c)) w.

End Words.


(** ** [getAPIBaseURL] *)

Module ApiBase.

(** [s.includes(pat)] *)
Fixpoint includes (s pat : jsstring) : bool :=
  startsWith s pat
  || match s with
     | [] => false
     | _ :: s' => includes s' pat
     end.

(** [s.replace(re, rep)] for a regular expression without flags that
    matches the text [pat] and nothing else, and a replacement without
    dollar patterns: the first occurrence of [pat] is replaced. *)
Fixpoint replace_first (s pat rep : jsstring) : jsstring :=
  if startsWith s pat then rep ++ skipn (List.length pat) s
  else
    match s with
    | [] => []
    | c :: s' => c :: replace_first s' pat rep
    end.

(** [window.location] *)
Record Location := {
  hostname : jsstring;
  protocol : jsstring
}.

(** What the function reads: [import.meta.env.VITE_API_URL], when it is
    defined, and [window], when there is one. *)
Record Environment := {
  VITE_API_URL : option jsstring;
  window : option Location
}.

Definition getAPIBaseURL (env : Environment) : jsstring :=
  match VITE_API_URL env with
  | Some ((_ :: _) as url) => url
  | _ =>
      match window env with
      | None => str "http://localhost:8000"
      | Some location =>
          let hostname := hostname location in
          let protocol := protocol location in
          if includes hostname (str ".app.github.dev")
             || includes hostname (str ".githubpreview.dev")
          then
            let newHostname :=
              replace_first hostname (str "-3000.") (str "-8000.") in
            protocol ++ str "//" ++ newHostname
          else if includes hostname (str ".railway.app")
                  || includes hostname (str ".up.railway.app")
          then str "BACKEND_URL_NOT_SET"
          else str "http://localhost:8000"
      end
  end.

End ApiBase.


(** ** [fetchAPI] and the calls that read a JSON reply *)

Module Api.

(** What [fetch] settles to: a rejection, or a response with its status
    and the text of its body. *)
Record Reply := {
  reply_ok : bool;
  reply_statusText : jsstring;
  reply_text : jsstring
}.

Inductive Fetched :=
| FetchRejected (reason : jsstring)
| Replied (reply : Reply).

(** What a call can throw: what [fetchAPI] throws, the SyntaxError of
    [response.json()], the TypeError of a property read on [null] or of a
    call of what is not a function. *)
Inductive Failure :=
| Thrown (e : Stream.Thrown)
| SyntaxError
| TypeError.

Definition fetchAPI (fetched : Fetched) : Reply + Failure :=
  match fetched with
  | FetchRejected reason => inr (Thrown (Stream.Rejection reason))
  | Replied response =>
      if negb (reply_ok response) then
        inr (Thrown (Stream.Error
                       (str "API Error: " ++ reply_statusText response)))
      else inl response
  end.

(** [response.json()] *)
Definition json (response : Reply) : JSON.value + Failure :=
  match JSON.parse (reply_text response) with
  | Some data => inl data
  | None => inr SyntaxError
  end.

(** [data.key]; [None] stands for the TypeError of a read on [null]. *)
Definition get_property (key : jsstring) (data : JSON.value)
  : option JSON.value :=
  match data with
  | JSON.Null | JSON.Undefined => None
  | JSON.Object props =>
      match JSON.lookup key props with
      | Some v => Some v
      | None => Some JSON.Undefined
      end
  | _ => Some JSON.Undefined
  end.

Definition getGhostSuggestion (fetched : Fetched) : JSON.value + Failure :=
  match fetchAPI fetched with
  | inr e => inr e
  | inl response =>
      match json response with
      | inr e => inr e
      | inl data =>
          match get_property (str "suggestion") data with
          | Some suggestion => inl suggestion
          | None => inr TypeError
          end
      end
  end.

(** [generateGhostSuggestion] of [DocumentEditor], whole: the call, the
    test [suggestion && suggestion.trim()], and the [catch] that turns
    whatever was thrown into [null].  Only a string has [trim]. *)
Definition generateGhostSuggestion (fetched : Fetched) (cursorPosition : N)
  : option Editor.GhostSuggestion :=
  match getGhostSuggestion fetched with
  | inl suggestion =>
      if JSON.truthy suggestion then
        match suggestion with
        | JSON.String s =>
            if JSON.truthy (JSON.String (trim s)) then
              Some {| Editor.text := s; Editor.position := cursorPosition |}
            else None
        | _ => None
        end
      else None
  | inr _ => None
  end.

Definition healthCheck (fetched : Fetched) : bool :=
  match fetchAPI fetched with
  | inr _ => false
  | inl response =>
      match json response with
      | inr _ => false
      | inl data =>
          match get_property (str "status") data with
          | Some (JSON.String status) => jsstring_eqb status (str "healthy")
          | Some _ => false
          | None => false
          end
      end
  end.

(** What the event loop of the editor is told when the call has settled:
    [Editor.ApiFailed] for everything that makes the function return
    through its [catch]. *)
Definition settled (fetched : Fetched) : Editor.ApiResult :=
  match getGhostSuggestion fetched with
  | inl (JSON.String s) => Editor.Suggestion s
  | inl v => if JSON.truthy v then Editor.ApiFailed else Editor.Suggestion []
  | inr _ => Editor.ApiFailed
  end.

End Api.


(** * The fuel of [JSON.parse] *)

Section JSONFacts.

Import JSON.
Local Open Scope nat_scope.

Lemma skip_ws_length (s : jsstring) :
  List.length (skip_ws s) <= List.length s.
Proof.
  induction s as [|c s IH]; simpl; [lia|].
  destruct (is_ws c); simpl; lia.
Qed.

Lemma digits_length (s : jsstring) :
  forall (acc : Z) (n : nat) (m : Z) (k : nat) (r : jsstring),
    digits s acc n = (m, k, r) -> List.length r <= List.length s.
Proof.
  induction s as [|c s IH]; simpl; intros acc n m k r H.
  - injection H as _ _ <-. simpl; lia.
  - destruct (digit c).
    + apply IH in H. lia.
    + injection H as _ _ <-. simpl; lia.
Qed.

Lemma parse_chars_length (n : nat) :
  forall (s t r : jsstring),
    List.length s <= n -> parse_chars s = Some (t, r) ->
    List.length r < List.length s.
Proof.
  induction n as [|n IH]; intros s t r Hn H.
  - destruct s; [discriminate|simpl in Hn; lia].
  - destruct s as [|c s]; [discriminate|]. simpl in Hn.
    cbn [parse_chars] in H.
    destruct (c =? 34)%N.
    { injection H as _ <-. simpl; lia. }
    destruct (c =? 92)%N.
    { destruct s as [|e s]; [discriminate|].
      destruct (e =? 117)%N.
      - destruct s as [|h1 [|h2 [|h3 [|h4 s]]]]; try discriminate.
        destruct (hex h1), (hex h2), (hex h3), (hex h4); try discriminate.
        destruct (parse_chars s) as [[t' r']|] eqn:E; [|discriminate].
        injection H as _ <-.
        apply IH in E; simpl in *; lia.
      - destruct (unescape e); [|discriminate].
        destruct (parse_chars s) as [[t' r']|] eqn:E; [|discriminate].
        injection H as _ <-.
        apply IH in E; simpl in *; lia. }
    destruct (c <? 32)%N; [discriminate|].
    destruct (parse_chars s) as [[t' r']|] eqn:E; [|discriminate].
    injection H as _ <-.
    apply IH in E; simpl in *; lia.
Qed.

Lemma parse_number_length (s : jsstring) (v : value) (r : jsstring) :
  parse_number s = Some (v, r) -> List.length r <= List.length s.
Proof.
  unfold parse_number. intros H.
  destruct (match s with
            | [] => (false, [])
            | c :: s' => if (c =? 45)%N then (true, s') else (false, s)
            end) as [neg s0] eqn:E0.
  assert (H0 : List.length s0 <= List.length s).
  { destruct s as [|c s']; [injection E0 as _ <-; simpl; lia|].
    destruct (c =? 45)%N; injection E0 as _ <-; simpl; lia. }
  destruct (parse_int s0) as [[ip s1]|] eqn:E1; [|discriminate].
  assert (H1 : List.length s1 <= List.length s0).
  { unfold parse_int in E1. destruct s0 as [|c s0']; [discriminate|].
    destruct (c =? 48)%N; [injection E1 as _ <-; simpl; lia|].
    destruct (digit c); [|discriminate].
    destruct (digits (c :: s0') 0 0) as [[m k] r'] eqn:D.
    injection E1 as _ <-. apply digits_length in D. exact D. }
  destruct (parse_frac ip s1) as [[[m fl] s2]|] eqn:E2; [|discriminate].
  assert (H2 : List.length s2 <= List.length s1).
  { unfold parse_frac in E2. destruct s1 as [|c s1'].
    - injection E2 as _ _ <-. simpl; lia.
    - destruct (c =? 46)%N.
      + destruct (digits s1' ip 0) as [[m' k] r'] eqn:D.
        apply digits_length in D.
        destruct k; [discriminate|]. injection E2 as _ _ <-. simpl; lia.
      + injection E2 as _ _ <-. simpl; lia. }
  destruct (parse_exp s2) as [[e s3]|] eqn:E3; [|discriminate].
  assert (H3 : List.length s3 <= List.length s2).
  { unfold parse_exp in E3. destruct s2 as [|c s2'].
    - injection E3 as _ <-. simpl; lia.
    - destruct ((c =? 101)%N || (c =? 69)%N).
      + destruct (match s2' with
                  | [] => (false, [])
                  | sg :: s'' =>
                      if (sg =? 45)%N then (true, s'')
                      else if (sg =? 43)%N then (false, s'') else (false, s2')
                  end) as [neg' s1'] eqn:Es.
        assert (Hs : List.length s1' <= List.length s2').
        { destruct s2' as [|sg s'']; [injection Es as _ <-; simpl; lia|].
          destruct (sg =? 45)%N; [injection Es as _ <-; simpl; lia|].
          destruct (sg =? 43)%N; injection Es as _ <-; simpl; lia. }
        destruct (digits s1' 0 0) as [[e' k] r'] eqn:D.
        apply digits_length in D.
        destruct k; [discriminate|]. injection E3 as _ <-. simpl; lia.
      + injection E3 as _ <-. simpl; lia. }
  injection H as _ <-. lia.
Qed.

Lemma starts_length (lit : string) (s r : jsstring) :
  starts lit s = Some r -> List.length r <= List.length s.
Proof.
  unfold starts. destruct (startsWith s (str lit)); [|discriminate].
  intros H; injection H as <-. rewrite length_skipn. lia.
Qed.


(** Brings the lengths of the rests of the parses at hand into the
    context. *)
Ltac rests :=
  repeat match goal with
  | H : parse_chars ?s = Some (_, _) |- _ =>
      apply (parse_chars_length (List.length s) s _ _ (le_n _)) in H
  | H : parse_number _ = Some (_, _) |- _ => apply parse_number_length in H
  | H : starts _ _ = Some _ |- _ => apply starts_length in H
  | H : skip_ws ?s = _ :: _ |- _ =>
      let L := fresh "L" in
      pose proof (skip_ws_length s) as L; rewrite H in L; clear H
  end.

Lemma parse_value_length (fuel : nat) :
  (forall s v r, parse_value fuel s = Some (v, r) ->
                 List.length r <= List.length s)
  /\ (forall s ms r, parse_members fuel s = Some (ms, r) ->
                     List.length r <= List.length s)
  /\ (forall s es r, parse_elements fuel s = Some (es, r) ->
                     List.length r <= List.length s).
Proof.
  induction fuel as [|n (IHv & IHm & IHe)];
    [repeat split; intros; discriminate|].
  repeat split.
  - intros s v r H. cbn [parse_value] in H.
    destruct s as [|c s']; [discriminate|].
    destruct (c =? 123)%N.
    { destruct (skip_ws s') as [|c1 r1] eqn:E; [discriminate|].
      destruct (c1 =? 125)%N.
      - injection H as _ <-. rests. simpl in *; lia.
      - destruct (parse_members n (c1 :: r1)) as [[ms r']|] eqn:M;
          [|discriminate].
        injection H as _ <-. apply IHm in M. rests. simpl in *; lia. }
    destruct (c =? 91)%N.
    { destruct (skip_ws s') as [|c1 r1] eqn:E; [discriminate|].
      destruct (c1 =? 93)%N.
      - injection H as _ <-. rests. simpl in *; lia.
      - destruct (parse_elements n (c1 :: r1)) as [[es r']|] eqn:M;
          [|discriminate].
        injection H as _ <-. apply IHe in M. rests. simpl in *; lia. }
    destruct (c =? 34)%N.
    { destruct (parse_chars s') as [[t r']|] eqn:E; [|discriminate].
      injection H as _ <-. rests. simpl in *; lia. }
    destruct (c =? 116)%N.
    { destruct (starts "true" (c :: s')) eqn:E; [|discriminate].
      injection H as _ <-. rests. exact E. }
    destruct (c =? 102)%N.
    { destruct (starts "false" (c :: s')) eqn:E; [|discriminate].
      injection H as _ <-. rests. exact E. }
    destruct (c =? 110)%N.
    { destruct (starts "null" (c :: s')) eqn:E; [|discriminate].
      injection H as _ <-. rests. exact E. }
    rests. exact H.
  - intros s ms r H. cbn [parse_members] in H.
    destruct s as [|c s1]; [discriminate|].
    destruct (c =? 34)%N; [|discriminate].
    destruct (parse_chars s1) as [[k s2]|] eqn:K; [|discriminate].
    destruct (skip_ws s2) as [|c3 s3] eqn:E2; [discriminate|].
    destruct (c3 =? 58)%N; [|discriminate].
    destruct (parse_value n (skip_ws s3)) as [[v s4]|] eqn:V; [|discriminate].
    apply IHv in V. pose proof (skip_ws_length s3).
    destruct (skip_ws s4) as [|c5 s5] eqn:E4; [discriminate|].
    destruct (c5 =? 125)%N.
    + injection H as _ <-. rests. simpl in *; lia.
    + destruct (c5 =? 44)%N; [|discriminate].
      destruct (parse_members n (skip_ws s5)) as [[ms' r']|] eqn:M;
        [|discriminate].
      injection H as _ <-. apply IHm in M. pose proof (skip_ws_length s5).
      rests. simpl in *; lia.
  - intros s es r H. cbn [parse_elements] in H.
    destruct (parse_value n s) as [[v s1]|] eqn:V; [|discriminate].
    apply IHv in V.
    destruct (skip_ws s1) as [|c2 s2] eqn:E1; [discriminate|].
    destruct (c2 =? 93)%N.
    + injection H as _ <-. rests. simpl in *; lia.
    + destruct (c2 =? 44)%N; [|discriminate].
      destruct (parse_elements n (skip_ws s2)) as [[es' r']|] eqn:M;
        [|discriminate].
      injection H as _ <-. apply IHe in M. pose proof (skip_ws_length s2).
      rests. simpl in *; lia.
Qed.

(** Fuel above twice the length of the text is never used up: any two
    such amounts give the same parse. *)
Lemma parse_fuel (fuel : nat) :
  forall fuel' : nat,
    (forall s, 2 * List.length s < fuel -> 2 * List.length s < fuel' ->
               parse_value fuel s = parse_value fuel' s)
    /\ (forall s, 2 * List.length s + 1 < fuel ->
                  2 * List.length s + 1 < fuel' ->
                  parse_members fuel s = parse_members fuel' s)
    /\ (forall s, 2 * List.length s + 1 < fuel ->
                  2 * List.length s + 1 < fuel' ->
                  parse_elements fuel s = parse_elements fuel' s).
Proof.
  induction fuel as [|n IH]; intros [|n'];
    try (repeat split; intros; lia).
  destruct (IH n') as (IHv & IHm & IHe). clear IH.
  repeat split.
  - intros s Hn Hn'. cbn [parse_value].
    destruct s as [|c s']; [reflexivity|]. simpl in Hn, Hn'.
    destruct (c =? 123)%N.
    { destruct (skip_ws s') as [|c1 r1] eqn:E; [reflexivity|].
      destruct (c1 =? 125)%N; [reflexivity|].
      pose proof (skip_ws_length s') as L. rewrite E in L.
      rewrite (IHm (c1 :: r1)) by lia. reflexivity. }
    destruct (c =? 91)%N.
    { destruct (skip_ws s') as [|c1 r1] eqn:E; [reflexivity|].
      destruct (c1 =? 93)%N; [reflexivity|].
      pose proof (skip_ws_length s') as L. rewrite E in L.
      rewrite (IHe (c1 :: r1)) by lia. reflexivity. }
    reflexivity.
  - intros s Hn Hn'. cbn [parse_members].
    destruct s as [|c s1]; [reflexivity|]. simpl in Hn, Hn'.
    destruct (c =? 34)%N; [|reflexivity].
    destruct (parse_chars s1) as [[k s2]|] eqn:K; [|reflexivity].
    destruct (skip_ws s2) as [|c3 s3] eqn:E2; [reflexivity|].
    destruct (c3 =? 58)%N; [|reflexivity].
    pose proof (skip_ws_length s3) as L3. rests. simpl in *.
    rewrite (IHv (skip_ws s3)) by lia.
    destruct (parse_value n' (skip_ws s3)) as [[v s4]|] eqn:V; [|reflexivity].
    apply (proj1 (parse_value_length n')) in V.
    destruct (skip_ws s4) as [|c5 s5] eqn:E4; [reflexivity|].
    destruct (c5 =? 125)%N; [reflexivity|].
    destruct (c5 =? 44)%N; [|reflexivity].
    pose proof (skip_ws_length s5) as L5. rests. simpl in *.
    rewrite (IHm (skip_ws s5)) by lia. reflexivity.
  - intros s Hn Hn'. cbn [parse_elements].
    rewrite (IHv s) by lia.
    destruct (parse_value n' s) as [[v s1]|] eqn:V; [|reflexivity].
    apply (proj1 (parse_value_length n')) in V.
    destruct (skip_ws s1) as [|c2 s2] eqn:E1; [reflexivity|].
    destruct (c2 =? 93)%N; [reflexivity|].
    destruct (c2 =? 44)%N; [|reflexivity].
    pose proof (skip_ws_length s2) as L2. rests. simpl in *.
    rewrite (IHe (skip_ws s2)) by lia. reflexivity.
Qed.

(** [JSON.parse] does not depend on the fuel it gives to [parse_value]. *)
Lemma parse_enough_fuel (s : jsstring) (fuel : nat) :
  2 * List.length s < fuel ->
  parse s
  = match parse_value fuel (skip_ws s) with
    | Some (v, r) =>
        match skip_ws r with
        | [] => Some v
        | _ :: _ => None
        end
    | None => None
    end.
Proof.
  intros H. unfold parse. pose proof (skip_ws_length s) as L.
  rewrite (proj1 (parse_fuel (S (S (2 * List.length s))) fuel)
             (skip_ws s)) by lia.
  reflexivity.
Qed.

End JSONFacts.


(** * Properties of [streamChat] *)

Section StreamFacts.

Import Stream.

Lemma jsstring_eqb_eq (a b : jsstring) : jsstring_eqb a b = true <-> a = b.
Proof.
  revert b; induction a as [|x a IH]; intros [|y b]; simpl;
    try (split; [discriminate | congruence]); try tauto.
  rewrite andb_true_iff, N.eqb_eq, IH. split.
  - intros [-> ->]; reflexivity.
  - intros H; injection H; auto.
Qed.

Lemma jsstring_eqb_refl (a : jsstring) : jsstring_eqb a a = true.
Proof. apply jsstring_eqb_eq; reflexivity. Qed.

Lemma startsWith_app (p s : jsstring) : startsWith (p ++ s) p = true.
Proof.
  induction p as [|c p IH]; simpl; [reflexivity|].
  rewrite N.eqb_refl; exact IH.
Qed.

Lemma slice_prefix (payload : jsstring) : slice 6 (prefix ++ payload) = payload.
Proof. reflexivity. Qed.

Lemma js_split_not_nil (sep : N) (s : jsstring) : js_split sep s <> [].
Proof.
  destruct s as [|c s]; simpl; [discriminate|].
  destruct (c =? sep); [discriminate|].
  destruct (js_split sep s); discriminate.
Qed.

(** Splitting at a separator splits the list of pieces. *)
Lemma js_split_app_sep (sep : N) (a b : jsstring) :
  js_split sep (a ++ sep :: b) = js_split sep a ++ js_split sep b.
Proof.
  induction a as [|c a IH]; simpl.
  - rewrite N.eqb_refl; reflexivity.
  - destruct (c =? sep); [rewrite IH; reflexivity|].
    rewrite IH. destruct (js_split sep a) eqn:E; [|reflexivity].
    exfalso; exact (js_split_not_nil _ _ E).
Qed.

Lemma js_split_no_sep (sep : N) (s : jsstring) :
  existsb (N.eqb sep) s = false -> js_split sep s = [s].
Proof.
  induction s as [|c s IH]; simpl; [reflexivity|].
  intros H; apply orb_false_iff in H; destruct H as [Hc Hs].
  rewrite N.eqb_sym, Hc, (IH Hs); reflexivity.
Qed.

Lemma ends_with_LF_inv (chunk : jsstring) :
  ends_with_LF chunk = true -> chunk = [] \/ exists a, chunk = a ++ [LF].
Proof.
  unfold ends_with_LF. intros H.
  destruct (rev chunk) as [|c r] eqn:E.
  - left. rewrite <- (rev_involutive chunk), E; reflexivity.
  - right. exists (rev r). apply N.eqb_eq in H; subst c.
    rewrite <- (rev_involutive chunk), E; reflexivity.
Qed.

Lemma decode_line_nil : decode_line [] = Skip.
Proof. reflexivity. Qed.

Lemma decode_line_not_data (line : jsstring) :
  startsWith line prefix = false -> decode_line line = Skip.
Proof. unfold decode_line; intros ->; reflexivity. Qed.

Lemma decode_line_data (payload : jsstring) :
  decode_line (prefix ++ payload) =
  if jsstring_eqb payload sentinel then Return
  else
    match JSON.parse payload with
    | Some parsed =>
        match JSON.get_content parsed with
        | Some content => if JSON.truthy content then Yield content else Skip
        | None => Skip
        end
    | None => Skip
    end.
Proof.
  unfold decode_line. rewrite startsWith_app, slice_prefix; reflexivity.
Qed.

Lemma decode_line_Return (line : jsstring) :
  decode_line line = Return <-> is_done line = true.
Proof.
  unfold decode_line, is_done.
  destruct (startsWith line prefix); cbn [andb]; [|split; discriminate].
  destruct (jsstring_eqb (slice 6 line) sentinel); [split; reflexivity|].
  split; [|discriminate].
  destruct (JSON.parse (slice 6 line)) as [v|]; [|discriminate].
  destruct (JSON.get_content v) as [c|]; [|discriminate].
  destruct (JSON.truthy c); discriminate.
Qed.

Lemma decode_line_done : decode_line (prefix ++ sentinel) = Return.
Proof. apply decode_line_Return; reflexivity. Qed.

Lemma for_lines_app (l1 l2 : list jsstring) :
  for_lines (l1 ++ l2) =
  if snd (for_lines l1) then (fst (for_lines l1), true)
  else (fst (for_lines l1) ++ fst (for_lines l2), snd (for_lines l2)).
Proof.
  induction l1 as [|l l1 IH]; simpl.
  - destruct (for_lines l2); reflexivity.
  - destruct (decode_line l); simpl; auto.
    rewrite IH. destruct (for_lines l1) as [ys r]; simpl.
    destruct r; reflexivity.
Qed.

Lemma for_lines_no_done (lines : list jsstring) :
  existsb is_done lines = false -> snd (for_lines lines) = false.
Proof.
  induction lines as [|l lines IH]; simpl; [reflexivity|].
  intros H; apply orb_false_iff in H; destruct H as [Hl Hr].
  destruct (decode_line l) eqn:E.
  - auto.
  - specialize (IH Hr). destruct (for_lines lines); simpl in *; auto.
  - apply decode_line_Return in E; congruence.
Qed.

Lemma for_lines_blank (lines : list jsstring) :
  for_lines ([] :: lines) = for_lines lines.
Proof. reflexivity. Qed.

(** A run over chunks alone is the [for] loop over all their lines. *)
Lemma while_read_chunks (chunks : list jsstring) :
  yielded (while_read (map Chunk chunks)) = fst (for_lines (lines_of chunks))
  /\ completion (while_read (map Chunk chunks)) = Returned.
Proof.
  induction chunks as [|c chunks [IHy IHc]]; simpl; [auto|].
  unfold lines_of in *; simpl. rewrite for_lines_app.
  destruct (for_lines (js_split LF c)) as [ys r]; simpl.
  destruct r; simpl; [auto|]. rewrite IHy; auto.
Qed.

(** While no sentinel has been seen, the loop goes on with the next read. *)
Lemma while_read_app (before : list jsstring) (rest : list ReadResult) :
  existsb is_done (lines_of before) = false ->
  while_read (map Chunk before ++ rest) =
  {| yielded := fst (for_lines (lines_of before)) ++ yielded (while_read rest);
     completion := completion (while_read rest);
     unread := unread (while_read rest) |}.
Proof.
  induction before as [|c before IH]; simpl.
  - intros _. destruct (while_read rest); reflexivity.
  - unfold lines_of in *; simpl. rewrite existsb_app.
    intros H; apply orb_false_iff in H; destruct H as [Hc Hb].
    rewrite for_lines_app. pose proof (for_lines_no_done _ Hc) as Hs.
    destruct (for_lines (js_split LF c)) as [ys r]; simpl in *; subst r.
    rewrite (IH Hb); simpl. rewrite app_assoc; reflexivity.
Qed.

Lemma line_aligned_lines (chunks : list jsstring) :
  line_aligned chunks = true ->
  for_lines (lines_of chunks) = for_lines (js_split LF (List.concat chunks)).
Proof.
  induction chunks as [|c chunks IH]; [reflexivity|].
  destruct chunks as [|c' chunks].
  - intros _. unfold lines_of; simpl. rewrite !app_nil_r; reflexivity.
  - intros H. change (ends_with_LF c && line_aligned (c' :: chunks) = true) in H.
    apply andb_true_iff in H; destruct H as [Hc Hr]. specialize (IH Hr).
    change (lines_of (c :: c' :: chunks))
      with (js_split LF c ++ lines_of (c' :: chunks)).
    change (List.concat (c :: c' :: chunks)) with (c ++ List.concat (c' :: chunks)).
    destruct (ends_with_LF_inv _ Hc) as [-> | [a ->]].
    + change ([] ++ List.concat (c' :: chunks))
        with (List.concat (c' :: chunks)).
      rewrite <- IH. reflexivity.
    + rewrite <- (app_assoc a [LF]).
      change ([LF] ++ List.concat (c' :: chunks))
        with (LF :: List.concat (c' :: chunks)).
      rewrite !js_split_app_sep, <- app_assoc.
      change (js_split LF [] ++ lines_of (c' :: chunks))
        with ([] :: lines_of (c' :: chunks)).
      rewrite (for_lines_app _ ([] :: _)), (for_lines_app _ (js_split _ _)).
      rewrite for_lines_blank, IH. reflexivity.
Qed.

Lemma for_lines_until_done (pre post : list jsstring) :
  existsb is_done pre = false ->
  for_lines (pre ++ (prefix ++ sentinel) :: post) = (fst (for_lines pre), true).
Proof.
  intros H. rewrite for_lines_app, (for_lines_no_done _ H).
  cbn [for_lines]. rewrite decode_line_done. cbn. rewrite app_nil_r; reflexivity.
Qed.

Lemma streamChat_succeeded (reader : list ReadResult) (st : jsstring) :
  streamChat {| ok := true; statusText := st; body := Some reader |}
  = while_read reader.
Proof. reflexivity. Qed.

(** Every yielded value is truthy. *)
Lemma for_lines_truthy (lines : list jsstring) :
  Forall (fun v => JSON.truthy v = true) (fst (for_lines lines)).
Proof.
  induction lines as [|l lines IH]; simpl; [constructor|].
  destruct (decode_line l) as [|c|] eqn:E; simpl; auto.
  destruct (for_lines lines) as [ys r]; simpl in *. constructor; [|exact IH].
  unfold decode_line in E.
  destruct (startsWith l prefix); [|discriminate].
  destruct (jsstring_eqb (slice 6 l) sentinel); [discriminate|].
  destruct (JSON.parse (slice 6 l)) as [v|]; [|discriminate].
  destruct (JSON.get_content v) as [c'|]; [|discriminate].
  destruct (JSON.truthy c') eqn:T; [|discriminate].
  injection E as <-; exact T.
Qed.

Lemma while_read_truthy (reader : list ReadResult) :
  Forall (fun v => JSON.truthy v = true) (yielded (while_read reader)).
Proof.
  induction reader as [|[chunk|reason] reader IH]; simpl;
    try solve [constructor].
  pose proof (for_lines_truthy (js_split LF chunk)) as H.
  destruct (for_lines (js_split LF chunk)) as [ys r]; simpl in *.
  destruct r; simpl; [exact H|]. apply Forall_app; auto.
Qed.

(** The payload that carries a text is decoded to it, unless it is
    empty. *)
Lemma decode_line_text (payload d : jsstring) :
  text_of payload = Some d ->
  decode_line (prefix ++ payload)
  = if nonempty d then Yield (JSON.String d) else Skip.
Proof.
  intros H. rewrite decode_line_data.
  destruct (jsstring_eqb payload sentinel) eqn:E.
  - apply jsstring_eqb_eq in E; subst payload. vm_compute in H; discriminate.
  - unfold text_of in H.
    destruct (existsb (N.eqb LF) payload); [discriminate|].
    destruct (JSON.parse payload) as [v|]; [|discriminate].
    destruct (JSON.get_content v) as [[| | | |t| |]|]; try discriminate.
    injection H as ->. reflexivity.
Qed.

Lemma js_split_frame (payload rest : jsstring) :
  existsb (N.eqb LF) payload = false ->
  js_split LF (frame payload ++ rest)
  = (prefix ++ payload) :: [] :: js_split LF rest.
Proof.
  intros H. unfold frame.
  rewrite <- !app_assoc.
  change ([LF; LF] ++ rest) with (LF :: [] ++ LF :: rest).
  rewrite app_assoc, !js_split_app_sep.
  rewrite js_split_no_sep; [reflexivity|].
  rewrite existsb_app, H; reflexivity.
Qed.

Lemma text_of_single_line (payload d : jsstring) :
  text_of payload = Some d -> existsb (N.eqb LF) payload = false.
Proof.
  unfold text_of. destruct (existsb (N.eqb LF) payload); [discriminate|auto].
Qed.

(** A chunk of whole frames yields their texts, in order, and goes on. *)
Lemma for_lines_frames (frames : list (jsstring * jsstring)) :
  Forall (fun pd => text_of (fst pd) = Some (snd pd)) frames ->
  for_lines (js_split LF (List.concat (map (fun pd => frame (fst pd)) frames)))
  = (map JSON.String (filter nonempty (map snd frames)), false).
Proof.
  induction 1 as [|[p d] frames Hpd _ IH]; [reflexivity|].
  cbn [map List.concat fst snd filter] in *.
  rewrite (js_split_frame _ _ (text_of_single_line _ _ Hpd)).
  cbn [for_lines]. rewrite (decode_line_text _ _ Hpd), decode_line_nil, IH.
  destruct (nonempty d); reflexivity.
Qed.

Lemma concatenation_strings (ds : list jsstring) :
  concatenation (map JSON.String ds) = List.concat ds.
Proof. induction ds as [|d ds IH]; simpl; [|rewrite IH]; reflexivity. Qed.

Lemma concat_nonempty (ds : list jsstring) :
  List.concat (filter nonempty ds) = List.concat ds.
Proof.
  induction ds as [|d ds IH]; simpl; [reflexivity|].
  destruct d as [|c d]; simpl; [exact IH|]. rewrite IH; reflexivity.
Qed.

(** The loop yields what its lines emit, line after line, up to the first
    sentinel frame. *)
Lemma for_lines_emitted (lines : list jsstring) :
  fst (for_lines lines) = flat_map emitted (until_done lines).
Proof.
  induction lines as [|l lines IH]; [reflexivity|].
  cbn [for_lines until_done].
  destruct (is_done l) eqn:D.
  - apply decode_line_Return in D. rewrite D. reflexivity.
  - cbn [flat_map]. unfold emitted at 1.
    destruct (decode_line l) eqn:E.
    + exact IH.
    + destruct (for_lines lines); simpl in *. rewrite IH; reflexivity.
    + apply decode_line_Return in E; congruence.
Qed.

End StreamFacts.

Section StreamClaims.

Import Stream.

(** C1, as the claim states it, fails: the frame with the content [A], cut
    after its tenth code unit, yields nothing, where the whole text yields
    the delta [A].  No partial line is kept between two reads. *)
Lemma chunk_split_counterexample :
  let whole := frame (content_json (str "A")) in
  firstn 10 whole ++ skipn 10 whole = whole /\
  yielded (streamChat (succeeded [whole])) = [JSON.String (str "A")] /\
  yielded (streamChat (succeeded [firstn 10 whole; skipn 10 whole])) = [] /\
  yielded (streamChat (succeeded [firstn 10 whole; skipn 10 whole]))
  <> yielded (streamChat (succeeded [whole])).
Proof. vm_compute. repeat split; discriminate. Qed.

(** C1, amended: when the text is divided only at the ends of lines (every
    chunk but the last is empty or ends with a line feed), the chunks fed
    one after the other yield the same deltas, and complete the same way, as
    the whole text fed as one chunk. *)
Theorem chunk_split_at_line_ends :
  forall chunks : list jsstring,
    line_aligned chunks = true ->
    yielded (streamChat (succeeded chunks))
    = yielded (streamChat (succeeded [List.concat chunks]))
    /\ completion (streamChat (succeeded chunks))
       = completion (streamChat (succeeded [List.concat chunks])).
Proof.
  intros chunks H. unfold succeeded. rewrite !streamChat_succeeded.
  destruct (while_read_chunks chunks) as [-> ->].
  destruct (while_read_chunks [List.concat chunks]) as [-> ->].
  split; [|reflexivity].
  rewrite (line_aligned_lines _ H). unfold lines_of; simpl.
  rewrite !app_nil_r; reflexivity.
Qed.

Lemma chunk_split_at_line_ends_witness :
  let chunks :=
    [frame (content_json (str "A"));
     frame (content_json (str "B")) ++ str "data: [DONE]" ++ [LF];
     [LF]] in
  line_aligned chunks = true /\
  yielded (streamChat (succeeded chunks))
  = yielded (streamChat (succeeded [List.concat chunks])) /\
  completion (streamChat (succeeded chunks))
  = completion (streamChat (succeeded [List.concat chunks])).
Proof.
  split; [reflexivity|].
  apply (chunk_split_at_line_ends
           [frame (content_json (str "A"));
            frame (content_json (str "B")) ++ str "data: [DONE]" ++ [LF];
            [LF]]).
  reflexivity.
Defined.

(** C4: once the line [data: [DONE]] is met, the generator returns: the
    deltas are those of the lines before it, whatever follows it in the
    same chunk, and the later read results are never read. *)
Theorem sentinel_terminates :
  forall (before : list jsstring) (chunk : jsstring)
         (pre post : list jsstring) (later : list ReadResult)
         (st : jsstring),
    js_split LF chunk = pre ++ (prefix ++ sentinel) :: post ->
    existsb is_done (lines_of before ++ pre) = false ->
    streamChat {| ok := true; statusText := st;
                  body := Some (map Chunk before ++ Chunk chunk :: later) |}
    = {| yielded := fst (for_lines (lines_of before ++ pre));
         completion := Returned;
         unread := later |}.
Proof.
  intros before chunk pre post later st Hsplit Hnone.
  rewrite streamChat_succeeded.
  rewrite existsb_app in Hnone.
  apply orb_false_iff in Hnone; destruct Hnone as [Hb Hp].
  rewrite (while_read_app _ _ Hb). cbn [while_read].
  rewrite Hsplit, (for_lines_until_done _ _ Hp). cbn.
  rewrite for_lines_app, (for_lines_no_done _ Hb). reflexivity.
Qed.

Lemma sentinel_terminates_witness :
  let chunk :=
    frame (content_json (str "B")) ++ frame sentinel
    ++ frame (content_json (str "C")) in
  streamChat
    {| ok := true; statusText := str "OK";
       body := Some (map Chunk [frame (content_json (str "A"))]
                     ++ Chunk chunk
                        :: [Chunk (frame (content_json (str "D")))]) |}
  = {| yielded := [JSON.String (str "A"); JSON.String (str "B")];
       completion := Returned;
       unread := [Chunk (frame (content_json (str "D")))] |}.
Proof.
  intro chunk.
  exact (sentinel_terminates
           [frame (content_json (str "A"))] chunk
           (firstn 2 (js_split LF chunk)) (skipn 3 (js_split LF chunk))
           [Chunk (frame (content_json (str "D")))] (str "OK")
           eq_refl eq_refl).
Defined.

(** C5, as the claim states it, fails: a well-formed frame whose [content]
    is the empty string, next to a frame that is not JSON, yields no
    delta. *)
Lemma malformed_frame_counterexample :
  JSON.parse (content_json [])
  = Some (JSON.Object [(str "content", JSON.String [])]) /\
  JSON.parse (str "{oops") = None /\
  streamChat (succeeded [frame (content_json []) ++ frame (str "{oops")])
  = {| yielded := []; completion := Returned; unread := [] |}.
Proof. vm_compute. auto. Qed.

(** C5, amended: a chunk whose [data: ] lines are one frame whose payload
    parses and has a truthy [content], and one frame whose payload is not
    the sentinel and does not parse, in either order, yields exactly that
    content and ends without an error. *)
Theorem malformed_frame_resilience :
  forall (chunk good bad : jsstring) (first second : jsstring)
         (n1 n2 n3 : list jsstring) (parsed content : JSON.value)
         (st : jsstring),
    js_split LF chunk
    = n1 ++ (prefix ++ first) :: n2 ++ (prefix ++ second) :: n3 ->
    (first = good /\ second = bad) \/ (first = bad /\ second = good) ->
    forallb (fun l => negb (startsWith l prefix)) (n1 ++ n2 ++ n3) = true ->
    JSON.parse good = Some parsed ->
    JSON.get_content parsed = Some content ->
    JSON.truthy content = true ->
    JSON.parse bad = None ->
    bad <> sentinel ->
    streamChat {| ok := true; statusText := st; body := Some [Chunk chunk] |}
    = {| yielded := [content]; completion := Returned; unread := [] |}.
Proof.
  intros chunk good bad first second n1 n2 n3 parsed content st
         Hsplit Horder Hnoise Hgood Hcontent Htruthy Hbad Hnot.
  assert (Hskip : forall ns, forallb (fun l => negb (startsWith l prefix)) ns
                             = true -> for_lines ns = ([], false)).
  { induction ns as [|l ns IH]; simpl; [reflexivity|].
    intros H; apply andb_true_iff in H; destruct H as [Hl Hr].
    apply negb_true_iff in Hl. rewrite (decode_line_not_data _ Hl); auto. }
  rewrite !forallb_app in Hnoise.
  apply andb_true_iff in Hnoise; destruct Hnoise as [H1 H23].
  apply andb_true_iff in H23; destruct H23 as [H2 H3].
  assert (Hg : decode_line (prefix ++ good) = Yield content).
  { rewrite decode_line_data.
    destruct (jsstring_eqb good sentinel) eqn:E.
    - apply jsstring_eqb_eq in E; subst good. vm_compute in Hgood; discriminate.
    - rewrite Hgood, Hcontent, Htruthy; reflexivity. }
  assert (Hb : decode_line (prefix ++ bad) = Skip).
  { rewrite decode_line_data.
    destruct (jsstring_eqb bad sentinel) eqn:E.
    - apply jsstring_eqb_eq in E; contradiction.
    - rewrite Hbad; reflexivity. }
  rewrite streamChat_succeeded. cbn [while_read].
  rewrite Hsplit, for_lines_app, (Hskip _ H1). cbn [fst snd for_lines app].
  destruct Horder as [[-> ->] | [-> ->]].
  - rewrite Hg, for_lines_app, (Hskip _ H2). cbn [fst snd for_lines app].
    rewrite Hb, (Hskip _ H3). reflexivity.
  - rewrite Hb, for_lines_app, (Hskip _ H2). cbn [fst snd for_lines app].
    rewrite Hg, (Hskip _ H3). reflexivity.
Qed.

Lemma malformed_frame_resilience_witness :
  streamChat
    {| ok := true; statusText := str "OK";
       body := Some [Chunk (frame (str "{oops")
                            ++ frame (content_json (str "A")))] |}
  = {| yielded := [JSON.String (str "A")]; completion := Returned;
       unread := [] |}.
Proof.
  refine (malformed_frame_resilience
            (frame (str "{oops") ++ frame (content_json (str "A")))
            (content_json (str "A")) (str "{oops")
            (str "{oops") (content_json (str "A"))
            [] [[]] [[]; []]
            (JSON.Object [(str "content", JSON.String (str "A"))])
            (JSON.String (str "A")) (str "OK")
            eq_refl _ eq_refl eq_refl eq_refl eq_refl eq_refl _).
  - right; split; reflexivity.
  - discriminate.
Defined.

(** C6: a response that is not [ok] makes the generator throw an error
    with the status text at once; it yields nothing and reads nothing of
    the body. *)
Theorem transport_failure :
  forall (st : jsstring) (b : option (list ReadResult)),
    let run := streamChat {| ok := false; statusText := st; body := b |} in
    yielded run = []
    /\ completion run = Threw (Error (str "Stream error: " ++ st))
    /\ unread run = match b with Some reader => reader | None => [] end.
Proof. intros st b. cbv zeta. unfold streamChat. simpl. auto. Qed.

(** C7: when the reads end, with or without a sentinel before, the
    generator returns normally; and a stream cut short yields a prefix of
    what the longer stream yields.  The stream that ends after the one
    frame with content [X] yields [X] and returns. *)
Theorem truncation_tolerance :
  (forall chunks : list jsstring,
      completion (streamChat (succeeded chunks)) = Returned)
  /\ (forall chunks more : list jsstring,
         exists ys,
           yielded (streamChat (succeeded (chunks ++ more)))
           = yielded (streamChat (succeeded chunks)) ++ ys)
  /\ streamChat (succeeded [frame (content_json (str "X"))])
     = {| yielded := [JSON.String (str "X")]; completion := Returned;
          unread := [] |}.
Proof.
  split; [|split].
  - intros chunks. apply while_read_chunks.
  - intros chunks more. unfold succeeded. rewrite !streamChat_succeeded.
    destruct (while_read_chunks (chunks ++ more)) as [-> _].
    destruct (while_read_chunks chunks) as [-> _].
    unfold lines_of. rewrite flat_map_app, for_lines_app.
    destruct (snd (for_lines (flat_map (js_split LF) chunks))).
    + exists []. rewrite app_nil_r; reflexivity.
    + eexists; reflexivity.
  - vm_compute. reflexivity.
Qed.

(** C9, as the claim states it, fails: the stream of the three frames
    [Hel], [lo ] and [world], cut after 30 and after 60 code units, yields
    [Hel] alone: the two frames that a chunk boundary cuts are lost, and
    the concatenation is not the generated text. *)
Lemma hello_world_cut_counterexample :
  let whole :=
    frame (content_json (str "Hel")) ++ frame (content_json (str "lo "))
    ++ frame (content_json (str "world")) in
  let chunks :=
    [firstn 30 whole; firstn 30 (skipn 30 whole); skipn 60 whole] in
  List.concat chunks = whole
  /\ concatenation (yielded (streamChat (succeeded [whole])))
     = str "Hello world"
  /\ yielded (streamChat (succeeded chunks)) = [JSON.String (str "Hel")]
  /\ concatenation (yielded (streamChat (succeeded chunks)))
     <> str "Hello world".
Proof. vm_compute. repeat split; discriminate. Qed.

(** C9, amended: for every stream the values are yielded in the order in
    which their lines arrive: chunk after chunk, and line after line within
    a chunk, up to the first sentinel frame.  When every frame arrives
    whole within one chunk, nothing is missing: frames that each carry a
    text, grouped into chunks in any way that keeps every frame whole,
    yield their texts in the order of arrival (an empty one is skipped),
    and the concatenation of the yielded values is the concatenation of all
    the texts; the generator returns normally, with a final sentinel frame
    or without. *)
Theorem deltas_in_order :
  (forall chunks : list jsstring,
      yielded (streamChat (succeeded chunks))
      = flat_map emitted (until_done (lines_of chunks)))
  /\ (forall (groups : list (list (jsstring * jsstring)))
             (terminated : bool),
         Forall (Forall (fun pd => text_of (fst pd) = Some (snd pd)))
           groups ->
         let chunks :=
           map (fun g => List.concat (map (fun pd => frame (fst pd)) g))
             groups in
         let run :=
           streamChat
             {| ok := true; statusText := str "OK";
                body := Some (map Chunk chunks
                              ++ if terminated then [Chunk (frame sentinel)]
                                 else []) |} in
         yielded run
         = map JSON.String
             (filter nonempty (map snd (List.concat groups)))
         /\ concatenation (yielded run)
            = List.concat (map snd (List.concat groups))
         /\ completion run = Returned).
Proof.
  split.
  { intros chunks. unfold succeeded. rewrite streamChat_succeeded.
    destruct (while_read_chunks chunks) as [-> _]. apply for_lines_emitted. }
  intros groups terminated H. cbv zeta. rewrite streamChat_succeeded.
  assert (Hy : yielded
                 (while_read
                    (map Chunk
                       (map (fun g =>
                               List.concat (map (fun pd => frame (fst pd)) g))
                            groups)
                     ++ (if terminated then [Chunk (frame sentinel)] else [])))
               = map JSON.String
                   (filter nonempty (map snd (List.concat groups)))
               /\ completion
                    (while_read
                       (map Chunk
                          (map (fun g =>
                                  List.concat
                                    (map (fun pd => frame (fst pd)) g))
                               groups)
                        ++ (if terminated then [Chunk (frame sentinel)]
                            else [])))
                  = Returned).
  { induction H as [|g groups Hg _ [IHy IHc]].
    - destruct terminated; vm_compute; auto.
    - cbn [map app while_read List.concat].
      rewrite (for_lines_frames _ Hg). cbn [yielded completion].
      rewrite IHy, IHc, !map_app, filter_app, map_app. auto. }
  destruct Hy as [-> ->].
  rewrite concatenation_strings, concat_nonempty. auto.
Qed.

Lemma deltas_in_order_witness :
  let second :=
    str "{" ++ quoted (str "id") ++ str ":7," ++ quoted (str "content")
    ++ str ":" ++ quoted (str "lo ") ++ str "," ++ quoted (str "done")
    ++ str ":false}" in
  let run :=
    streamChat
      (succeeded [frame (content_json (str "Hel"));
                  frame second;
                  frame (content_json (str "world"))]) in
  yielded run
  = [JSON.String (str "Hel"); JSON.String (str "lo ");
     JSON.String (str "world")]
  /\ concatenation (yielded run) = str "Hello world"
  /\ completion run = Returned.
Proof.
  intros second.
  refine (proj2 deltas_in_order
            [[(content_json (str "Hel"), str "Hel")];
             [(second, str "lo ")];
             [(content_json (str "world"), str "world")]] false _).
  repeat constructor.
Defined.

(** C10: a frame whose payload parses, and whose [content] is missing or
    falsy (the empty string, zero, [false], [null]), is skipped; and no
    falsy value, so no empty string, is ever yielded. *)
Theorem falsy_content_dropped :
  (forall (payload : jsstring) (parsed content : JSON.value),
      JSON.parse payload = Some parsed ->
      JSON.get_content parsed = Some content ->
      JSON.truthy content = false ->
      decode_line (prefix ++ payload) = Skip)
  /\ (forall response : Response,
         Forall (fun v => JSON.truthy v = true)
           (yielded (streamChat response))
         /\ ~ In (JSON.String []) (yielded (streamChat response))).
Proof.
  split.
  - intros payload parsed content Hp Hc Ht. rewrite decode_line_data.
    destruct (jsstring_eqb payload sentinel) eqn:E.
    + apply jsstring_eqb_eq in E; subst payload.
      vm_compute in Hp; discriminate.
    + rewrite Hp, Hc, Ht; reflexivity.
  - intros response.
    assert (H : Forall (fun v => JSON.truthy v = true)
                  (yielded (streamChat response))).
    { unfold streamChat. destruct (ok response); simpl; [|constructor].
      destruct (body response); simpl; [apply while_read_truthy|constructor]. }
    split; [exact H|].
    intros Hin. rewrite Forall_forall in H. specialize (H _ Hin).
    discriminate.
Qed.

Lemma falsy_content_dropped_witness :
  decode_line (prefix ++ content_json []) = Skip
  /\ decode_line (prefix ++ str "{}") = Skip
  /\ decode_line (prefix ++ content_literal (str "0")) = Skip
  /\ decode_line (prefix ++ content_literal (str "false")) = Skip.
Proof.
  split; [|split; [|split]].
  - exact (proj1 falsy_content_dropped (content_json [])
             (JSON.Object [(str "content", JSON.String [])]) (JSON.String [])
             eq_refl eq_refl eq_refl).
  - exact (proj1 falsy_content_dropped (str "{}")
             (JSON.Object []) JSON.Undefined eq_refl eq_refl eq_refl).
  - exact (proj1 falsy_content_dropped (content_literal (str "0"))
             (JSON.Object [(str "content", JSON.Number 0 0)])
             (JSON.Number 0 0) eq_refl eq_refl eq_refl).
  - exact (proj1 falsy_content_dropped (content_literal (str "false"))
             (JSON.Object [(str "content", JSON.Bool false)])
             (JSON.Bool false) eq_refl eq_refl eq_refl).
Defined.

End StreamClaims.

(** * Properties of the ghost-suggestion handlers *)

Section EditorFacts.

Import Editor.

Lemma In_enqueue (x t : Timer) (ts : list Timer) :
  In t (enqueue x ts) <-> t = x \/ In t ts.
Proof.
  induction ts as [|t' ts IH]; simpl.
  - intuition.
  - destruct (due t' <=? due x); simpl; rewrite ?IH; intuition.
Qed.

Lemma filter_enqueue (f : Timer -> bool) (x : Timer) (ts : list Timer) :
  f x = false -> filter f (enqueue x ts) = filter f ts.
Proof.
  intros Hx. induction ts as [|t' ts IH]; simpl.
  - rewrite Hx; reflexivity.
  - destruct (due t' <=? due x); simpl.
    + rewrite IH; reflexivity.
    + rewrite Hx; reflexivity.
Qed.

(** The callbacks leave the timers, the component state other than the
    cursor, and the clock alone. *)
Lemma run_callbacks_frame (ready : list Timer) (s : State) :
  let s' := fold_left (fun s' t => run_callback (callback t) s') ready s in
  timers s' = timers s /\ nextTimer s' = nextTimer s
  /\ ghostTimeoutRef s' = ghostTimeoutRef s
  /\ ghostSuggestion s' = ghostSuggestion s
  /\ localContent s' = localContent s
  /\ isComposing s' = isComposing s
  /\ now s' = now s.
Proof.
  revert s; induction ready as [|t ready IH]; intros s; simpl.
  - repeat split.
  - specialize (IH (run_callback (callback t) s)). simpl in IH.
    destruct IH as (H1 & H2 & H3 & H4 & H5 & H6 & H7).
    rewrite H1, H2, H3, H4, H5, H6, H7.
    destruct (callback t); repeat split.
Qed.

Lemma timers_ok_init (content purpose selectedModel : jsstring) :
  timers_ok (init content purpose selectedModel).
Proof. split; [reflexivity|]. intros t []. Qed.

Lemma timers_ok_step (s : State) (e : Event) :
  timers_ok s -> timers_ok (step s e).
Proof.
  intros [Hn Ht]. destruct e as [value cursor|key|cursor| | |ms|r result].
  - (* Input *)
    unfold step, handleInput.
    destruct s as [lc gs ic ref pu sm ss nw nt ts pd cs]; simpl in *.
    assert (Hclear :
      forall t, In t (match ref with
                      | Some id =>
                          if id =? 0 then ts
                          else filter (fun t => negb (timer_id t =? id)) ts
                      | None => ts
                      end) ->
                In t ts /\ is_ghost t = false).
    { intros t Hin. destruct ref as [id|].
      - destruct (id =? 0) eqn:E0.
        + split; [exact Hin|]. destruct (is_ghost t) eqn:G; [|reflexivity].
          destruct (Ht t Hin) as (Hpos & _ & Href). specialize (Href G).
          apply N.eqb_eq in E0. injection Href as ->. lia.
        + apply filter_In in Hin; destruct Hin as [Hin Hne].
          split; [exact Hin|]. destruct (is_ghost t) eqn:G; [|reflexivity].
          destruct (Ht t Hin) as (_ & _ & Href). specialize (Href G).
          injection Href as ->. rewrite N.eqb_refl in Hne; discriminate.
      - split; [exact Hin|]. destruct (is_ghost t) eqn:G; [|reflexivity].
        destruct (Ht t Hin) as (_ & _ & Href). specialize (Href G).
        discriminate. }
    destruct ic; simpl.
    + destruct ref as [id|]; [destruct (id =? 0)|]; simpl; split; auto;
        intros t Hin; simpl in *; apply filter_In in Hin; apply Ht; tauto.
    + assert (Hgoal :
        forall ts', (forall t, In t ts' -> In t ts /\ is_ghost t = false) ->
          forall t,
            In t (enqueue {| timer_id := nt; due := nw + debounce;
                             callback := GhostCallback value |} ts') ->
            0 < timer_id t /\ timer_id t < nt + 1
            /\ (is_ghost t = true -> Some nt = Some (timer_id t))).
      { intros ts' Hsub t Hin. apply In_enqueue in Hin.
        destruct Hin as [-> | Hin]; simpl.
        - repeat split; try lia; auto.
        - destruct (Hsub t Hin) as [Hin' Hg].
          destruct (Ht t Hin') as (H1 & H2 & _).
          repeat split; try lia. rewrite Hg; discriminate. }
      destruct ref as [id|]; [destruct (id =? 0) eqn:E0|];
        (split; simpl; [lia|]); apply Hgoal; intros t Hin;
        apply (Hclear t); exact Hin.
  - (* KeyDown *)
    unfold step, handleKeyDown.
    destruct s as [lc gs ic ref pu sm ss nw nt ts pd cs]; simpl in *.
    destruct key, gs as [g|]; simpl; try (split; assumption).
    split; simpl; [lia|]. intros t Hin. apply In_enqueue in Hin.
    destruct Hin as [-> | Hin]; simpl.
    + repeat split; try lia. discriminate.
    + destruct (Ht t Hin) as (H1 & H2 & H3). repeat split; auto; lia.
  - split; assumption.
  - split; assumption.
  - split; assumption.
  - (* Elapse *)
    unfold step, fire_due.
    destruct (partition _ (timers (set_now (now s + ms) s)))
      as [ready waiting] eqn:P.
    pose proof (run_callbacks_frame ready
                  (set_timers (nextTimer (set_now (now s + ms) s)) waiting
                     (set_now (now s + ms) s))) as F.
    cbv zeta in F. destruct F as (F1 & F2 & F3 & _).
    unfold timers_ok. rewrite F1, F2, F3. simpl. split; [exact Hn|].
    intros t Hin. apply Ht.
    apply (elements_in_partition _ _ P). right; exact Hin.
  - (* Resolve *)
    unfold step. destruct (find _ (pending s)) as [p|]; [|split; assumption].
    unfold resume.
    destruct (generateGhostSuggestion_result result (cursorPos p));
      [destruct (cursorPos p =? _)|]; split; assumption.
Qed.

Lemma timers_ok_run (events : list Event) (s : State) :
  timers_ok s -> timers_ok (run s events).
Proof.
  revert s; induction events as [|e events IH]; intros s H; simpl; auto.
  apply IH, timers_ok_step, H.
Qed.

Lemma handleInput_frame (value : jsstring) (cursor : N) (s : State) :
  let s' := handleInput value cursor s in
  pending s' = pending s /\ calls s' = calls s /\ now s' = now s
  /\ purpose s' = purpose s /\ selectedModel s' = selectedModel s
  /\ isComposing s' = isComposing s /\ selectionStart s' = cursor
  /\ localContent s' = value /\ ghostSuggestion s' = None.
Proof.
  destruct s as [lc gs ic ref pu sm ss nw nt ts pd cs].
  unfold handleInput; simpl.
  destruct ic, ref as [id|]; simpl; try destruct (id =? 0); simpl;
    repeat split.
Qed.

Lemma handleKeyDown_frame (key : Key) (s : State) :
  let s' := handleKeyDown key s in
  pending s' = pending s /\ calls s' = calls s
  /\ ghostTimeoutRef s' = ghostTimeoutRef s
  /\ ghost_timers s' = ghost_timers s.
Proof.
  destruct s as [lc gs ic ref pu sm ss nw nt ts pd cs].
  unfold handleKeyDown, ghost_timers; simpl.
  destruct key, gs as [g|]; simpl; repeat split.
  apply filter_enqueue; reflexivity.
Qed.

Lemma find_app_l {A} (f : A -> bool) (l l' : list A) (x : A) :
  find f l = Some x -> find f (l ++ l') = Some x.
Proof.
  induction l as [|a l IH]; simpl; [discriminate|].
  destruct (f a); auto.
Qed.

Lemma find_filter {A} (f g : A -> bool) (l : list A) (x : A) :
  (forall a, f a = true -> g a = true) ->
  find f l = Some x -> find f (filter g l) = Some x.
Proof.
  intros Hfg. induction l as [|a l IH]; simpl; [discriminate|].
  destruct (f a) eqn:Fa.
  - intros H. rewrite (Hfg a Fa). simpl. rewrite Fa. exact H.
  - intros H. destruct (g a); simpl; [rewrite Fa|]; auto.
Qed.

Lemma run_callback_requests (cb : Callback) (s : State) :
  exists ps, pending (run_callback cb s) = pending s ++ ps.
Proof.
  destruct cb as [newContent|len]; simpl.
  - eexists; reflexivity.
  - exists []. rewrite app_nil_r; reflexivity.
Qed.

Lemma in_flight_callbacks (ready : list Timer) (s : State) (r : N)
  (p : Pending) :
  in_flight r s = Some p ->
  in_flight r (fold_left (fun s' t => run_callback (callback t) s') ready s)
  = Some p.
Proof.
  revert s; induction ready as [|t ready IH]; intros s H; simpl; auto.
  apply IH. unfold in_flight in *.
  destruct (run_callback_requests (callback t) s) as (ps & Hp).
  rewrite Hp. apply find_app_l, H.
Qed.

Lemma resume_frame (p : Pending) (result : ApiResult) (s : State) :
  pending (resume p result s) = pending s
  /\ calls (resume p result s) = calls s
  /\ timers (resume p result s) = timers s.
Proof.
  unfold resume.
  destruct (generateGhostSuggestion_result result (cursorPos p));
    [destruct (cursorPos p =? _)|]; repeat split.
Qed.

(** A request stays in flight, with what its callback holds, until it is
    settled. *)
Lemma in_flight_step (s : State) (e : Event) (r : N) (p : Pending) :
  in_flight r s = Some p -> resolves r e = false ->
  in_flight r (step s e) = Some p.
Proof.
  intros H He. destruct e as [value cursor|key|cursor| | |ms|r' result];
    try exact H.
  - destruct (handleInput_frame value cursor s) as (Hp & _).
    unfold step, in_flight in *. rewrite Hp. exact H.
  - destruct (handleKeyDown_frame key s) as (Hp & _).
    unfold step, in_flight in *. rewrite Hp. exact H.
  - unfold step, fire_due.
    destruct (partition _ (timers (set_now (now s + ms) s)))
      as [ready waiting].
    apply in_flight_callbacks. exact H.
  - simpl in He. unfold step.
    destruct (find _ (pending s)) as [q|]; [|exact H].
    unfold in_flight in *.
    destruct (resume_frame q result
                (set_requests
                   (filter (fun p' => negb (request p' =? r')) (pending s))
                   (calls s) s)) as (-> & _).
    simpl. apply find_filter; [|exact H].
    intros a Ha. apply N.eqb_eq in Ha. rewrite Ha, N.eqb_sym, He.
    reflexivity.
Qed.

Lemma in_flight_run (events : list Event) (s : State) (r : N) (p : Pending) :
  in_flight r s = Some p -> existsb (resolves r) events = false ->
  in_flight r (run s events) = Some p.
Proof.
  revert s; induction events as [|e events IH]; intros s H He; simpl; auto.
  simpl in He. apply orb_false_iff in He. destruct He as [He Hes].
  apply IH; [|exact Hes]. apply in_flight_step; assumption.
Qed.

Lemma in_flight_request (r : N) (s : State) (p : Pending) :
  in_flight r s = Some p -> request p = r.
Proof.
  unfold in_flight. intros H. apply find_some in H.
  apply N.eqb_eq; tauto.
Qed.

(** What the settlement of a request in flight displays. *)
Lemma resolve_displays (s : State) (r : N) (p : Pending)
  (result : ApiResult) :
  in_flight r s = Some p ->
  ghostSuggestion (step s (Resolve r result))
  = displayed_after p result (ghostSuggestion s).
Proof.
  unfold in_flight, step. intros ->.
  unfold resume, generateGhostSuggestion_result, displayed_after.
  destruct result as [|suggestion]; [reflexivity|].
  destruct (jsstring_eqb suggestion []) eqn:E.
  - apply jsstring_eqb_eq in E; subst suggestion. reflexivity.
  - cbn [negb andb].
    destruct (jsstring_eqb (trim suggestion) []); cbn [negb andb];
      [reflexivity|].
    destruct (cursorPos p =? _); reflexivity.
Qed.

Lemma filter_all_false {A} (f : A -> bool) (l : list A) :
  (forall a, In a l -> f a = false) -> filter f l = [].
Proof.
  induction l as [|a l IH]; simpl; [reflexivity|].
  intros H. rewrite (H a (or_introl eq_refl)). apply IH.
  intros b Hb; apply H; right; exact Hb.
Qed.

(** Outside a composition, with debounce timers only, an input event
    leaves exactly one timer: its own. *)
Lemma input_arms (value : jsstring) (cursor : N) (s : State) :
  timers_ok s -> forallb is_ghost (timers s) = true ->
  isComposing s = false ->
  armed s (handleInput value cursor s) value cursor.
Proof.
  intros [Hn Ht] Hg Hc.
  destruct s as [lc gs ic ref pu sm ss nw nt ts pd cs]; simpl in *.
  subst ic. rewrite forallb_forall in Hg.
  assert (Hclear :
    match ref with
    | Some id =>
        if id =? 0 then ts
        else filter (fun t => negb (timer_id t =? id)) ts
    | None => ts
    end = []).
  { destruct ref as [id|].
    - destruct (id =? 0) eqn:E0.
      + destruct ts as [|t ts]; [reflexivity|]. exfalso.
        destruct (Ht t (or_introl eq_refl)) as (Hpos & _ & Href).
        specialize (Href (Hg t (or_introl eq_refl))).
        apply N.eqb_eq in E0. injection Href as ->. lia.
      + apply filter_all_false. intros t Hin.
        destruct (Ht t Hin) as (_ & _ & Href).
        specialize (Href (Hg t Hin)). injection Href as ->.
        rewrite N.eqb_refl; reflexivity.
    - destruct ts as [|t ts]; [reflexivity|]. exfalso.
      destruct (Ht t (or_introl eq_refl)) as (_ & _ & Href).
      specialize (Href (Hg t (or_introl eq_refl))). discriminate. }
  exists nt. unfold handleInput; simpl.
  destruct ref as [id|]; [destruct (id =? 0)|]; simpl; simpl in Hclear;
    rewrite Hclear; simpl; repeat split; auto; lia.
Qed.

Lemma elapse_waiting (s : State) (t : Timer) (gap : N) :
  timers s = [t] -> now s + gap < due t ->
  step s (Elapse gap) = set_now (now s + gap) s.
Proof.
  destruct s as [lc gs ic ref pu sm ss nw nt ts pd cs]; simpl.
  intros -> H. apply N.leb_gt in H.
  unfold fire_due, set_now; simpl. rewrite H. reflexivity.
Qed.

Lemma elapse_fires (s : State) (id at_ : N) (value : jsstring) (wait : N) :
  timers s = [{| timer_id := id; due := at_;
                 callback := GhostCallback value |}] ->
  at_ <= now s + wait ->
  step s (Elapse wait)
  = ghostCallback value
      (set_timers (nextTimer s) [] (set_now (now s + wait) s)).
Proof.
  destruct s as [lc gs ic ref pu sm ss nw nt ts pd cs]; simpl.
  intros -> H. apply N.leb_le in H.
  unfold fire_due, set_now; simpl. rewrite H. reflexivity.
Qed.

Lemma armed_next (s0 s : State) (value : jsstring) (cursor gap : N)
  (value' : jsstring) (cursor' : N) :
  armed s0 s value cursor -> gap < debounce ->
  armed s0 (step (step s (Elapse gap)) (Input value' cursor')) value' cursor'.
Proof.
  intros (id & Ht & Hr & Hpos & Hlt & Hs & Hc & Hcs & Hp & Hpu & Hm) Hgap.
  rewrite (elapse_waiting s _ gap Ht) by (simpl; lia).
  assert (Hok : timers_ok (set_now (now s + gap) s)).
  { split; simpl; [lia|]. rewrite Ht. intros t [<- | []]. simpl.
    repeat split; auto. }
  assert (Hg : forallb is_ghost (timers (set_now (now s + gap) s)) = true).
  { simpl. rewrite Ht. reflexivity. }
  destruct (input_arms value' cursor' _ Hok Hg Hc)
    as (id' & H1 & H2 & H3 & H4 & H5 & H6 & H7 & H8 & H9 & H10).
  exists id'. simpl in *. repeat split; auto; congruence.
Qed.

Lemma last_cons {A} (a d : A) (l : list A) : last (a :: l) d = last l a.
Proof.
  revert a d; induction l as [|b l IH]; intros a d; [reflexivity|].
  change (last (a :: b :: l) d) with (last (b :: l) d).
  rewrite !IH. reflexivity.
Qed.

Lemma armed_burst (s0 : State) (rest : list (N * jsstring * N)) :
  forall (s : State) (first : jsstring * N),
    armed s0 s (fst first) (snd first) -> rapid rest = true ->
    armed s0
      (run s (flat_map (fun '(gap, value, cursor) =>
                          [Elapse gap; Input value cursor]) rest))
      (fst (last_input first rest)) (snd (last_input first rest)).
Proof.
  induction rest as [|[[gap value] cursor] rest IH]; intros s first Ha Hr.
  - exact Ha.
  - simpl in Hr. apply andb_true_iff in Hr. destruct Hr as [Hgap Hr].
    apply N.ltb_lt in Hgap.
    unfold last_input. cbn [map]. rewrite last_cons.
    cbn [flat_map app run fold_left].
    apply (IH _ (value, cursor)); [|exact Hr].
    apply (armed_next s0 s (fst first) (snd first)); assumption.
Qed.

Lemma armed_fires (s0 s : State) (value : jsstring) (cursor wait : N) :
  armed s0 s value cursor -> debounce <= wait ->
  calls (step s (Elapse wait))
  = calls s0 ++ [{| params_text := value; cursorPosition := cursor;
                    params_purpose := purpose s0;
                    model := selectedModel s0 |}]
  /\ timers (step s (Elapse wait)) = [].
Proof.
  intros (id & Ht & Hr & Hpos & Hlt & Hs & Hc & Hcs & Hp & Hpu & Hm) Hw.
  rewrite (elapse_fires s _ _ _ wait Ht) by lia.
  simpl. rewrite Hcs, Hs, Hpu, Hm. auto.
Qed.

End EditorFacts.

Section EditorClaims.

Import Editor.

(** C2, as the claim states it, fails: the request for the content [ab] is
    in flight when the user types [c]; its response is displayed all the
    same, next to the content [abc]. *)
Lemma staleness_counterexample :
  let issued :=
    run (init [] (str "writing") (str "m"))
      [Input (str "ab") 2; Elapse 1500] in
  let edited := step issued (Input (str "abc") 3) in
  let resolved := step edited (Resolve 0 (Suggestion (str " X"))) in
  calls issued
  = [{| params_text := str "ab"; cursorPosition := 2;
        params_purpose := str "writing"; model := str "m" |}]
  /\ localContent issued = str "ab"
  /\ localContent edited = str "abc"
  /\ ghostSuggestion edited = None
  /\ localContent resolved = str "abc"
  /\ ghostSuggestion resolved = Some {| text := str " X"; position := 2 |}.
Proof. vm_compute. repeat split. Qed.

(** C2, amended: when the call settles, its suggestion is displayed exactly
    when it is not blank and the cursor position the callback read when its
    timer fired equals the length of the content the input event captured.
    Whatever happened while the request was in flight, an edit included,
    changes nothing to that: the live content and cursor are not looked
    at.  A failed call or a blank suggestion leaves the display as it is,
    without an error. *)
Theorem resolution_uses_captured_values :
  forall (issued : State) (events : list Event) (r : N) (p : Pending)
         (result : ApiResult),
    in_flight r issued = Some p ->
    existsb (resolves r) events = false ->
    let live := run issued events in
    ghostSuggestion (step live (Resolve r result))
    = displayed_after p result (ghostSuggestion live).
Proof.
  intros issued events r p result Hp He live.
  apply resolve_displays. apply in_flight_run; assumption.
Qed.

Lemma resolution_uses_captured_values_witness :
  let issued :=
    run (init [] (str "writing") (str "m"))
      [Input (str "ab") 2; Elapse 1500] in
  let live := run issued [Input (str "abc") 3; Select 1] in
  ghostSuggestion (step live (Resolve 0 (Suggestion (str " X"))))
  = Some {| text := str " X"; position := 2 |}.
Proof.
  exact (resolution_uses_captured_values
           (run (init [] (str "writing") (str "m"))
              [Input (str "ab") 2; Elapse 1500])
           [Input (str "abc") 3; Select 1] 0
           {| request := 0; newContent := str "ab"; cursorPos := 2 |}
           (Suggestion (str " X")) eq_refl eq_refl).
Defined.

(** C3, as the claim states it, fails: input events that arrive during a
    composition arm no timer, and no call is ever issued for them. *)
Lemma debounce_counterexample :
  let composing := step (init [] (str "writing") (str "m")) CompositionStart in
  let typed := run composing (burst (str "a", 1) [(100, str "ab", 2)]) in
  timers typed = []
  /\ calls (run typed [Elapse 1500; Elapse 100000]) = [].
Proof. vm_compute. split; reflexivity. Qed.

(** C3, amended: outside a composition, and with no cursor timer of an
    accepted suggestion still waiting, a burst of one or more input events,
    each less than the debounce interval after the one before, issues no
    call while it lasts and leaves exactly one timer, that of its last
    event; once the interval has passed exactly one call has been issued,
    with the content and the cursor position of the last event. *)
Theorem debounce_collapse :
  forall (content0 purpose0 model0 : jsstring) (history : list Event)
         (first : jsstring * N) (rest : list (N * jsstring * N)) (wait : N),
    let s := run (init content0 purpose0 model0) history in
    isComposing s = false ->
    forallb is_ghost (timers s) = true ->
    rapid rest = true ->
    debounce <= wait ->
    let typed := run s (burst first rest) in
    let final := last_input first rest in
    calls typed = calls s
    /\ (exists id,
           timers typed
           = [{| timer_id := id; due := now typed + debounce;
                 callback := GhostCallback (fst final) |}])
    /\ calls (step typed (Elapse wait))
       = calls s ++ [{| params_text := fst final;
                        cursorPosition := snd final;
                        params_purpose := purpose s;
                        model := selectedModel s |}]
    /\ timers (step typed (Elapse wait)) = [].
Proof.
  intros content pu sm history first rest wait s Hc Hg Hr Hw typed final.
  assert (Hok : timers_ok s) by apply timers_ok_run, timers_ok_init.
  pose proof (input_arms (fst first) (snd first) s Hok Hg Hc) as Ha.
  pose proof (armed_burst s rest _ first Ha Hr) as Hb.
  change (armed s typed (fst final) (snd final)) in Hb.
  destruct (armed_fires _ _ _ _ wait Hb Hw) as [Hcalls Htimers].
  destruct Hb as (id & Ht & _ & _ & _ & _ & _ & Hcs & _).
  repeat split; auto. exists id; exact Ht.
Qed.

Lemma debounce_collapse_witness :
  let s := run (init [] (str "writing") (str "m")) [Input (str "x") 1] in
  let typed :=
    run s (burst (str "xa", 2) [(100, str "xab", 3); (1499, str "xabc", 4)]) in
  calls (step typed (Elapse 1500))
  = [{| params_text := str "xabc"; cursorPosition := 4;
        params_purpose := str "writing"; model := str "m" |}].
Proof.
  refine (proj1 (proj2 (proj2
            (debounce_collapse [] (str "writing") (str "m")
               [Input (str "x") 1] (str "xa", 2)
               [(100, str "xab", 3); (1499, str "xabc", 4)] 1500
               eq_refl eq_refl eq_refl _)))).
  unfold debounce; lia.
Defined.

(** C8, as the claim states it, fails: Escape clears the displayed
    suggestion, but the debounce timer that waits still fires and issues
    its call, and the result of the request in flight is displayed when it
    arrives. *)
Lemma cancellation_counterexample :
  let s :=
    run (init [] (str "writing") (str "m"))
      [Input (str "ab") 2; Elapse 1500; Input (str "abc") 3; Elapse 1500;
       Input (str "abcd") 4; Resolve 0 (Suggestion (str "X"))] in
  let dismissed := step s (KeyDown Escape) in
  ghostSuggestion s = Some {| text := str "X"; position := 2 |}
  /\ ghostSuggestion dismissed = None
  /\ timers dismissed
     = [{| timer_id := 3; due := 4500;
           callback := GhostCallback (str "abcd") |}]
  /\ List.length (calls dismissed) = 2%nat
  /\ List.length (calls (step dismissed (Elapse 1500))) = 3%nat
  /\ ghostSuggestion (step dismissed (Resolve 1 (Suggestion (str "Y"))))
     = Some {| text := str "Y"; position := 3 |}.
Proof. vm_compute. repeat split. Qed.

(** C8, amended: Escape or Tab, when a suggestion is displayed, clears it
    at once, Tab after appending its text to the content; with no
    suggestion displayed, and for any other key, nothing changes.  The
    debounce timers that wait, [ghostTimeoutRef] and the requests in flight
    are left as they are, and the result of a request in flight is
    displayed afterwards by the same rule as without the key. *)
Theorem keydown_clears_display_only :
  forall (s : State) (key : Key),
    let s' := step s (KeyDown key) in
    ghost_timers s' = ghost_timers s
    /\ ghostTimeoutRef s' = ghostTimeoutRef s
    /\ pending s' = pending s
    /\ calls s' = calls s
    /\ match key, ghostSuggestion s with
       | Tab, Some g =>
           ghostSuggestion s' = None
           /\ localContent s' = localContent s ++ text g
       | Escape, Some _ =>
           ghostSuggestion s' = None /\ localContent s' = localContent s
       | _, _ => s' = s
       end
    /\ (forall (r : N) (p : Pending) (result : ApiResult),
           in_flight r s = Some p ->
           ghostSuggestion (step s' (Resolve r result))
           = displayed_after p result (ghostSuggestion s')).
Proof.
  intros s key s'.
  destruct (handleKeyDown_frame key s) as (Hp & Hc & Hr & Hg).
  repeat split; auto.
  - subst s'. destruct s as [lc gs ic ref pu sm ss nw nt ts pd cs].
    destruct key, gs as [g|]; simpl; auto.
  - intros r p result H. apply resolve_displays.
    unfold in_flight in *. subst s'. simpl. rewrite Hp. exact H.
Qed.

Lemma keydown_clears_display_only_witness :
  let s :=
    run (init [] (str "writing") (str "m"))
      [Input (str "ab") 2; Elapse 1500; Input (str "abc") 3; Elapse 1500;
       Resolve 0 (Suggestion (str "X"))] in
  ghostSuggestion (step (step s (KeyDown Tab)) (Resolve 1 (Suggestion (str "Y"))))
  = Some {| text := str "Y"; position := 3 |}.
Proof.
  exact (proj2 (proj2 (proj2 (proj2 (proj2
           (keydown_clears_display_only
              (run (init [] (str "writing") (str "m"))
                 [Input (str "ab") 2; Elapse 1500; Input (str "abc") 3;
                  Elapse 1500; Resolve 0 (Suggestion (str "X"))])
              Tab))))) 1
           {| request := 1; newContent := str "abc"; cursorPos := 3 |}
           (Suggestion (str "Y")) eq_refl).
Defined.

End EditorClaims.

(** * Further properties of [streamChat] *)

Section MoreStreamFacts.

Import Stream Lines.

Lemma for_lines_data (lines : list jsstring) :
  for_lines (filter is_data lines) = for_lines lines.
Proof.
  induction lines as [|l lines IH]; [reflexivity|].
  cbn [filter]. destruct (is_data l) eqn:D.
  - cbn [for_lines]. rewrite IH. reflexivity.
  - cbn [for_lines]. rewrite (decode_line_not_data l D). exact IH.
Qed.

Lemma for_lines_count (lines : list jsstring) :
  (List.length (fst (for_lines lines))
   <= List.length (filter is_data lines))%nat.
Proof.
  induction lines as [|l lines IH]; [apply le_n|].
  cbn [for_lines filter].
  destruct (is_data l) eqn:D.
  - destruct (decode_line l); simpl.
    + lia.
    + destruct (for_lines lines); simpl in *. lia.
    + lia.
  - rewrite (decode_line_not_data l D). exact IH.
Qed.

Lemma js_split_join (sep : N) (c : jsstring) (chunks : list jsstring) :
  js_split sep (join sep (c :: chunks))
  = flat_map (js_split sep) (c :: chunks).
Proof.
  revert c; induction chunks as [|c' chunks IH]; intros c.
  - simpl. rewrite app_nil_r. reflexivity.
  - change (join sep (c :: c' :: chunks))
      with (c ++ sep :: join sep (c' :: chunks)).
    rewrite js_split_app_sep, IH. reflexivity.
Qed.

Lemma join_js_split (sep : N) (s : jsstring) :
  join sep (js_split sep s) = s.
Proof.
  induction s as [|c s IH]; [reflexivity|].
  simpl. destruct (c =? sep) eqn:E.
  - apply N.eqb_eq in E; subst c.
    destruct (js_split sep s) as [|piece pieces] eqn:S;
      [destruct (js_split_not_nil _ _ S)|].
    change (join sep ([] :: piece :: pieces))
      with (sep :: join sep (piece :: pieces)).
    rewrite IH. reflexivity.
  - destruct (js_split sep s) as [|piece pieces] eqn:S;
      [destruct (js_split_not_nil _ _ S)|].
    rewrite <- IH. destruct pieces; reflexivity.
Qed.

Lemma js_split_pieces (sep : N) (s : jsstring) :
  Forall (fun piece => existsb (N.eqb sep) piece = false) (js_split sep s).
Proof.
  induction s as [|c s IH]; simpl; [repeat constructor|].
  destruct (c =? sep) eqn:E.
  - constructor; [reflexivity|exact IH].
  - destruct (js_split sep s) as [|piece pieces]; [repeat constructor|].
    + simpl. rewrite N.eqb_sym, E. reflexivity.
    + inversion IH; subst. constructor; [|assumption].
      simpl. rewrite N.eqb_sym, E. assumption.
Qed.

End MoreStreamFacts.

Section MoreStreamProperties.

Import Stream Lines.

(** X1: a read that is rejected before any sentinel was met makes the
    generator throw the reason of the rejection; what the chunks before it
    yielded stays yielded, and nothing more is read. *)
Theorem read_rejection_surfaces :
  forall (before : list jsstring) (reason : jsstring)
         (later : list ReadResult) (st : jsstring),
    existsb is_done (lines_of before) = false ->
    streamChat {| ok := true; statusText := st;
                  body := Some (map Chunk before
                                ++ ReadRejected reason :: later) |}
    = {| yielded := flat_map emitted (lines_of before);
         completion := Threw (Rejection reason);
         unread := later |}.
Proof.
  intros before reason later st H. rewrite streamChat_succeeded.
  rewrite (while_read_app _ _ H). cbn [while_read yielded completion unread].
  rewrite app_nil_r, for_lines_emitted.
  assert (E : until_done (lines_of before) = lines_of before).
  { revert H. generalize (lines_of before). intros ls.
    induction ls as [|l ls IH]; simpl; [reflexivity|].
    intros H. apply orb_false_iff in H. destruct H as [-> H].
    rewrite (IH H). reflexivity. }
  rewrite E. reflexivity.
Qed.

Lemma read_rejection_surfaces_witness :
  streamChat
    {| ok := true; statusText := str "OK";
       body := Some (map Chunk [frame (content_json (str "A"))]
                     ++ ReadRejected (str "reset")
                        :: [Chunk (frame (content_json (str "B")))]) |}
  = {| yielded := [JSON.String (str "A")];
       completion := Threw (Rejection (str "reset"));
       unread := [Chunk (frame (content_json (str "B")))] |}.
Proof.
  exact (read_rejection_surfaces [frame (content_json (str "A"))]
           (str "reset") [Chunk (frame (content_json (str "B")))]
           (str "OK") eq_refl).
Defined.

(** X2: only the lines that start with [data: ] count: the values yielded
    are those of these lines alone, in order, up to the first sentinel
    frame; every other line (blank, comment, [event:], [data:] without the
    space) changes nothing. *)
Theorem only_data_lines_count :
  forall chunks : list jsstring,
    yielded (streamChat (succeeded chunks))
    = flat_map emitted (until_done (filter is_data (lines_of chunks))).
Proof.
  intros chunks. unfold succeeded. rewrite streamChat_succeeded.
  destruct (while_read_chunks chunks) as [-> _].
  rewrite <- for_lines_data. apply for_lines_emitted.
Qed.

(** X3: nothing is yielded twice: the number of values yielded is at most
    the number of [data: ] lines received. *)
Theorem at_most_one_delta_per_data_line :
  forall chunks : list jsstring,
    (List.length (yielded (streamChat (succeeded chunks)))
     <= List.length (filter is_data (lines_of chunks)))%nat.
Proof.
  intros chunks. unfold succeeded. rewrite streamChat_succeeded.
  destruct (while_read_chunks chunks) as [-> _]. apply for_lines_count.
Qed.

(** X4: splitting a chunk into lines loses nothing: the lines joined again
    with line feeds are the chunk, and no line holds a line feed. *)
Theorem split_join_round_trip :
  forall chunk : jsstring,
    join LF (js_split LF chunk) = chunk
    /\ Forall (fun line => existsb (N.eqb LF) line = false)
         (js_split LF chunk).
Proof.
  intros chunk. split; [apply join_js_split|apply js_split_pieces].
Qed.

(** X5: a chunk boundary acts as a line break: chunks fed one after the
    other yield the same values, and complete the same way, as the one
    chunk made of them with a line feed between each two. *)
Theorem chunk_boundary_is_line_break :
  forall (chunk : jsstring) (chunks : list jsstring),
    yielded (streamChat (succeeded (chunk :: chunks)))
    = yielded (streamChat (succeeded [join LF (chunk :: chunks)]))
    /\ completion (streamChat (succeeded (chunk :: chunks)))
       = completion (streamChat (succeeded [join LF (chunk :: chunks)])).
Proof.
  intros chunk chunks. unfold succeeded. rewrite !streamChat_succeeded.
  destruct (while_read_chunks (chunk :: chunks)) as [-> ->].
  destruct (while_read_chunks [join LF (chunk :: chunks)]) as [-> ->].
  split; [|reflexivity].
  unfold lines_of. cbn [flat_map]. rewrite app_nil_r, js_split_join.
  reflexivity.
Qed.

End MoreStreamProperties.

(** * Lines that end with CR LF *)

Section CarriageReturn.

Import JSON Stream Lines.

Lemma skip_ws_CR (s : jsstring) :
  skip_ws (s ++ [CR])
  = match skip_ws s with
    | [] => []
    | c :: r => c :: r ++ [CR]
    end.
Proof.
  induction s as [|c s IH]; [reflexivity|].
  simpl. destruct (is_ws c); [exact IH|reflexivity].
Qed.

Lemma digits_CR (s : jsstring) :
  forall (acc : Z) (n : nat),
    digits (s ++ [CR]) acc n
    = let '(m, k, r) := digits s acc n in (m, k, r ++ [CR]).
Proof.
  induction s as [|c s IH]; intros acc n; [reflexivity|].
  simpl. destruct (digit c); [apply IH|reflexivity].
Qed.

Lemma parse_int_CR (s : jsstring) (m : Z) (r : jsstring) :
  parse_int s = Some (m, r) -> parse_int (s ++ [CR]) = Some (m, r ++ [CR]).
Proof.
  unfold parse_int. destruct s as [|c s]; [discriminate|].
  cbn [app]. destruct (c =? 48).
  - intros H; injection H as <- <-. reflexivity.
  - destruct (digit c); [|discriminate].
    change (c :: s ++ [CR]) with ((c :: s) ++ [CR]).
    rewrite digits_CR.
    destruct (digits (c :: s) 0 0) as [[m' k] r'].
    intros H; injection H as <- <-. reflexivity.
Qed.

Lemma parse_frac_CR (m : Z) (s : jsstring) (m' : Z) (k : nat)
  (r : jsstring) :
  parse_frac m s = Some (m', k, r) ->
  parse_frac m (s ++ [CR]) = Some (m', k, r ++ [CR]).
Proof.
  unfold parse_frac. destruct s as [|c s].
  - intros H; injection H as <- <- <-. reflexivity.
  - cbn [app]. destruct (c =? 46).
    + rewrite digits_CR.
      destruct (digits s m 0) as [[m1 k1] r1].
      destruct k1; [discriminate|].
      intros H; injection H as <- <- <-. reflexivity.
    + intros H; injection H as <- <- <-. reflexivity.
Qed.

Lemma parse_exp_CR (s : jsstring) (e : Z) (r : jsstring) :
  parse_exp s = Some (e, r) -> parse_exp (s ++ [CR]) = Some (e, r ++ [CR]).
Proof.
  unfold parse_exp. destruct s as [|c s].
  - intros H; injection H as <- <-. reflexivity.
  - cbn [app]. destruct ((c =? 101) || (c =? 69)).
    + destruct s as [|sg s].
      * discriminate.
      * cbn [app]. destruct (sg =? 45).
        { rewrite digits_CR. destruct (digits s 0 0) as [[e1 k1] r1].
          destruct k1; [discriminate|].
          intros H; injection H as <- <-. reflexivity. }
        destruct (sg =? 43).
        { rewrite digits_CR. destruct (digits s 0 0) as [[e1 k1] r1].
          destruct k1; [discriminate|].
          intros H; injection H as <- <-. reflexivity. }
        change (sg :: s ++ [CR]) with ((sg :: s) ++ [CR]).
        rewrite digits_CR. destruct (digits (sg :: s) 0 0) as [[e1 k1] r1].
        destruct k1; [discriminate|].
        intros H; injection H as <- <-. reflexivity.
    + intros H; injection H as <- <-. reflexivity.
Qed.

Lemma parse_number_CR (s : jsstring) (v : value) (r : jsstring) :
  parse_number s = Some (v, r) ->
  parse_number (s ++ [CR]) = Some (v, r ++ [CR]).
Proof.
  unfold parse_number. destruct s as [|c s]; [discriminate|].
  cbn [app].
  assert (H : forall neg s0,
             match parse_int s0 with
             | None => None
             | Some (ip, s1) =>
                 match parse_frac ip s1 with
                 | None => None
                 | Some (m, fl, s2) =>
                     match parse_exp s2 with
                     | None => None
                     | Some (e, s3) =>
                         Some (Number (if neg : bool then (- m)%Z else m)
                                 (e - Z.of_nat fl), s3)
                     end
                 end
             end = Some (v, r) ->
             match parse_int (s0 ++ [CR]) with
             | None => None
             | Some (ip, s1) =>
                 match parse_frac ip s1 with
                 | None => None
                 | Some (m, fl, s2) =>
                     match parse_exp s2 with
                     | None => None
                     | Some (e, s3) =>
                         Some (Number (if neg : bool then (- m)%Z else m)
                                 (e - Z.of_nat fl), s3)
                     end
                 end
             end = Some (v, r ++ [CR])).
  { intros neg s0 H.
    destruct (parse_int s0) as [[ip s1]|] eqn:E1; [|discriminate].
    rewrite (parse_int_CR _ _ _ E1).
    destruct (parse_frac ip s1) as [[[m fl] s2]|] eqn:E2; [|discriminate].
    rewrite (parse_frac_CR _ _ _ _ _ E2).
    destruct (parse_exp s2) as [[e s3]|] eqn:E3; [|discriminate].
    rewrite (parse_exp_CR _ _ _ E3).
    injection H as <- <-. reflexivity. }
  destruct (c =? 45).
  - exact (H true s).
  - exact (H false (c :: s)).
Qed.

Lemma parse_chars_CR (n : nat) :
  forall (s t r : jsstring),
    (List.length s <= n)%nat -> parse_chars s = Some (t, r) ->
    parse_chars (s ++ [CR]) = Some (t, r ++ [CR]).
Proof.
  induction n as [|n IH]; intros s t r Hn H.
  - destruct s; [discriminate|simpl in Hn; lia].
  - destruct s as [|c s]; [discriminate|]. simpl in Hn.
    cbn [parse_chars app] in *.
    destruct (c =? 34).
    { injection H as <- <-. reflexivity. }
    destruct (c =? 92).
    { destruct s as [|e s]; [discriminate|]. cbn [app].
      destruct (e =? 117).
      - destruct s as [|h1 [|h2 [|h3 [|h4 s]]]]; try discriminate.
        cbn [app].
        destruct (hex h1), (hex h2), (hex h3), (hex h4); try discriminate.
        destruct (parse_chars s) as [[t' r']|] eqn:E; [|discriminate].
        rewrite (IH s t' r') by (simpl in *; auto; lia).
        injection H as <- <-. reflexivity.
      - destruct (unescape e); [|discriminate].
        destruct (parse_chars s) as [[t' r']|] eqn:E; [|discriminate].
        rewrite (IH s t' r') by (simpl in *; auto; lia).
        injection H as <- <-. reflexivity. }
    destruct (c <? 32); [discriminate|].
    destruct (parse_chars s) as [[t' r']|] eqn:E; [|discriminate].
    rewrite (IH s t' r') by (auto; lia).
    injection H as <- <-. reflexivity.
Qed.

Lemma startsWith_length (s p : jsstring) :
  startsWith s p = true -> (List.length p <= List.length s)%nat.
Proof.
  revert s; induction p as [|x p IH]; intros s; simpl; [lia|].
  destruct s as [|c s]; [discriminate|].
  intros H. apply andb_true_iff in H. destruct H as [_ H].
  apply IH in H. simpl; lia.
Qed.

Lemma startsWith_app_r (s p t : jsstring) :
  startsWith s p = true -> startsWith (s ++ t) p = true.
Proof.
  revert s; induction p as [|x p IH]; intros s; simpl; [reflexivity|].
  destruct s as [|c s]; [discriminate|]. cbn [app].
  intros H. apply andb_true_iff in H. destruct H as [-> H].
  apply IH, H.
Qed.

Lemma starts_CR (lit : string) (s r : jsstring) :
  starts lit s = Some r -> starts lit (s ++ [CR]) = Some (r ++ [CR]).
Proof.
  unfold starts. destruct (startsWith s (str lit)) eqn:E; [|discriminate].
  intros H; injection H as <-.
  rewrite (startsWith_app_r _ _ _ E), skipn_app.
  apply startsWith_length in E.
  replace (List.length (str lit) - List.length s)%nat with 0%nat by lia.
  reflexivity.
Qed.

Lemma parse_value_CR (fuel : nat) :
  (forall s v r, parse_value fuel s = Some (v, r) ->
                 parse_value fuel (s ++ [CR]) = Some (v, r ++ [CR]))
  /\ (forall s ms r, parse_members fuel s = Some (ms, r) ->
                     parse_members fuel (s ++ [CR]) = Some (ms, r ++ [CR]))
  /\ (forall s es r, parse_elements fuel s = Some (es, r) ->
                     parse_elements fuel (s ++ [CR]) = Some (es, r ++ [CR])).
Proof.
  induction fuel as [|n (IHv & IHm & IHe)];
    [repeat split; intros; discriminate|].
  repeat split.
  - intros s v r H. cbn [parse_value] in *.
    destruct s as [|c s']; [discriminate|]. cbn [app].
    destruct (c =? 123).
    { rewrite skip_ws_CR.
      destruct (skip_ws s') as [|c1 r1]; [discriminate|].
      destruct (c1 =? 125).
      - injection H as <- <-. reflexivity.
      - destruct (parse_members n (c1 :: r1)) as [[ms r']|] eqn:M;
          [|discriminate].
        change (c1 :: r1 ++ [CR]) with ((c1 :: r1) ++ [CR]).
        rewrite (IHm _ _ _ M). injection H as <- <-. reflexivity. }
    destruct (c =? 91).
    { rewrite skip_ws_CR.
      destruct (skip_ws s') as [|c1 r1]; [discriminate|].
      destruct (c1 =? 93).
      - injection H as <- <-. reflexivity.
      - destruct (parse_elements n (c1 :: r1)) as [[es r']|] eqn:M;
          [|discriminate].
        change (c1 :: r1 ++ [CR]) with ((c1 :: r1) ++ [CR]).
        rewrite (IHe _ _ _ M). injection H as <- <-. reflexivity. }
    destruct (c =? 34).
    { destruct (parse_chars s') as [[t r']|] eqn:E; [|discriminate].
      rewrite (parse_chars_CR _ _ _ _ (le_n _) E).
      injection H as <- <-. reflexivity. }
    change (c :: s' ++ [CR]) with ((c :: s') ++ [CR]).
    destruct (c =? 116).
    { destruct (starts "true" (c :: s')) eqn:E; [|discriminate].
      rewrite (starts_CR _ _ _ E). injection H as <- <-. reflexivity. }
    destruct (c =? 102).
    { destruct (starts "false" (c :: s')) eqn:E; [|discriminate].
      rewrite (starts_CR _ _ _ E). injection H as <- <-. reflexivity. }
    destruct (c =? 110).
    { destruct (starts "null" (c :: s')) eqn:E; [|discriminate].
      rewrite (starts_CR _ _ _ E). injection H as <- <-. reflexivity. }
    apply parse_number_CR, H.
  - intros s ms r H. cbn [parse_members] in *.
    destruct s as [|c s1]; [discriminate|]. cbn [app].
    destruct (c =? 34); [|discriminate].
    destruct (parse_chars s1) as [[k s2]|] eqn:K; [|discriminate].
    rewrite (parse_chars_CR _ _ _ _ (le_n _) K), skip_ws_CR.
    destruct (skip_ws s2) as [|c3 s3]; [discriminate|].
    destruct (c3 =? 58); [|discriminate].
    destruct (parse_value n (skip_ws s3)) as [[v s4]|] eqn:V; [|discriminate].
    rewrite skip_ws_CR.
    destruct (skip_ws s3) as [|c4 r4] eqn:E3.
    { destruct n; discriminate V. }
    change (c4 :: r4 ++ [CR]) with ((c4 :: r4) ++ [CR]).
    rewrite (IHv _ _ _ V), skip_ws_CR.
    destruct (skip_ws s4) as [|c5 s5]; [discriminate|].
    destruct (c5 =? 125).
    + injection H as <- <-. reflexivity.
    + destruct (c5 =? 44); [|discriminate].
      destruct (parse_members n (skip_ws s5)) as [[ms' r']|] eqn:M;
        [|discriminate].
      rewrite skip_ws_CR.
      destruct (skip_ws s5) as [|c6 r6] eqn:E5.
      { destruct n; discriminate M. }
      change (c6 :: r6 ++ [CR]) with ((c6 :: r6) ++ [CR]).
      rewrite (IHm _ _ _ M). injection H as <- <-. reflexivity.
  - intros s es r H. cbn [parse_elements] in *.
    destruct (parse_value n s) as [[v s1]|] eqn:V; [|discriminate].
    rewrite (IHv _ _ _ V), skip_ws_CR.
    destruct (skip_ws s1) as [|c2 s2]; [discriminate|].
    destruct (c2 =? 93).
    + injection H as <- <-. reflexivity.
    + destruct (c2 =? 44); [|discriminate].
      destruct (parse_elements n (skip_ws s2)) as [[es' r']|] eqn:M;
        [|discriminate].
      rewrite skip_ws_CR.
      destruct (skip_ws s2) as [|c6 r6] eqn:E5.
      { destruct n as [|n']; [discriminate M|].
        cbn [parse_elements] in M. destruct n'; discriminate M. }
      change (c6 :: r6 ++ [CR]) with ((c6 :: r6) ++ [CR]).
      rewrite (IHe _ _ _ M). injection H as <- <-. reflexivity.
Qed.

(** A carriage return after a JSON text is white space to [JSON.parse]. *)
Lemma parse_CR (payload : jsstring) (v : value) :
  parse payload = Some v -> parse (payload ++ [CR]) = Some v.
Proof.
  intros H.
  rewrite (parse_enough_fuel payload
             (S (S (2 * List.length (payload ++ [CR]))))) in H
    by (rewrite length_app; simpl; lia).
  unfold parse. rewrite skip_ws_CR.
  destruct (skip_ws payload) as [|c r] eqn:E; [discriminate H|].
  destruct (parse_value _ (c :: r)) as [[v' r']|] eqn:V; [|discriminate].
  change (c :: r ++ [CR]) with ((c :: r) ++ [CR]).
  rewrite (proj1 (parse_value_CR _) _ _ _ V), skip_ws_CR.
  destruct (skip_ws r'); [exact H|discriminate].
Qed.

End CarriageReturn.


Section CarriageReturnProperties.

Import Stream Lines.

Lemma sentinel_CR (payload : jsstring) :
  jsstring_eqb (payload ++ [CR]) sentinel = false.
Proof.
  destruct (jsstring_eqb (payload ++ [CR]) sentinel) eqn:E; [|reflexivity].
  apply jsstring_eqb_eq in E. apply (f_equal (@rev N)) in E.
  rewrite rev_app_distr in E. discriminate E.
Qed.

Lemma decode_line_crlf (payload d : jsstring) :
  text_of payload = Some d ->
  decode_line (prefix ++ payload ++ [CR])
  = if nonempty d then Yield (JSON.String d) else Skip.
Proof.
  intros H. rewrite decode_line_data, sentinel_CR.
  unfold text_of in H.
  destruct (existsb (N.eqb LF) payload); [discriminate|].
  destruct (JSON.parse payload) as [v|] eqn:P; [|discriminate].
  rewrite (parse_CR _ _ P).
  destruct (JSON.get_content v) as [[| | | |t| |]|]; try discriminate.
  injection H as ->. reflexivity.
Qed.

Lemma js_split_frame_crlf (payload rest : jsstring) :
  existsb (N.eqb LF) payload = false ->
  js_split LF (frame_crlf payload ++ rest)
  = (prefix ++ payload ++ [CR]) :: [CR] :: js_split LF rest.
Proof.
  intros H. unfold frame_crlf.
  replace ((prefix ++ payload ++ [CR; LF; CR; LF]) ++ rest)
    with ((prefix ++ payload ++ [CR]) ++ LF :: [CR] ++ LF :: rest)
    by (rewrite <- !app_assoc; reflexivity).
  rewrite !js_split_app_sep.
  rewrite (js_split_no_sep LF (prefix ++ payload ++ [CR])).
  - reflexivity.
  - rewrite !existsb_app, H. reflexivity.
Qed.

Lemma for_lines_frames_crlf (frames : list (jsstring * jsstring)) :
  Forall (fun pd => text_of (fst pd) = Some (snd pd)) frames ->
  for_lines
    (js_split LF (List.concat (map (fun pd => frame_crlf (fst pd)) frames)))
  = (map JSON.String (filter nonempty (map snd frames)), false).
Proof.
  induction 1 as [|[p d] frames Hpd _ IH]; [reflexivity|].
  cbn [map List.concat fst snd filter] in *.
  rewrite (js_split_frame_crlf _ _ (text_of_single_line _ _ Hpd)).
  cbn [for_lines]. rewrite (decode_line_crlf _ _ Hpd).
  change (decode_line [CR]) with Skip. rewrite IH.
  destruct (nonempty d); reflexivity.
Qed.

(** X6: when the server ends its lines with CR LF, the frames that carry a
    text are decoded as with LF alone, but the line of the sentinel holds a
    carriage return after [[DONE]] and is not taken for the sentinel: the
    generator goes on reading, and yields the texts of the frames that come
    after it too. *)
Theorem crlf_sentinel_not_recognised :
  forall (before after : list (jsstring * jsstring)),
    Forall (fun pd => text_of (fst pd) = Some (snd pd)) before ->
    Forall (fun pd => text_of (fst pd) = Some (snd pd)) after ->
    streamChat
      (succeeded
         [List.concat (map (fun pd => frame_crlf (fst pd)) before);
          frame_crlf sentinel;
          List.concat (map (fun pd => frame_crlf (fst pd)) after)])
    = {| yielded :=
           map JSON.String (filter nonempty (map snd (before ++ after)));
         completion := Returned;
         unread := [] |}.
Proof.
  intros before after Hb Ha. unfold succeeded.
  rewrite streamChat_succeeded. cbn [map while_read].
  rewrite (for_lines_frames_crlf _ Hb), (for_lines_frames_crlf _ Ha).
  change (for_lines (js_split LF (frame_crlf sentinel))) with
    (@nil JSON.value, false).
  cbn. rewrite app_nil_r, map_app, filter_app, map_app. reflexivity.
Qed.

Lemma crlf_sentinel_not_recognised_witness :
  streamChat
    (succeeded
       [frame_crlf (content_json (str "A"));
        frame_crlf sentinel;
        frame_crlf (content_json (str "B"))])
  = {| yielded := [JSON.String (str "A"); JSON.String (str "B")];
       completion := Returned;
       unread := [] |}.
Proof.
  refine (eq_trans _
            (crlf_sentinel_not_recognised
               [(content_json (str "A"), str "A")]
               [(content_json (str "B"), str "B")] _ _)).
  - reflexivity.
  - repeat constructor.
  - repeat constructor.
Defined.

End CarriageReturnProperties.

(** * Further properties of the ghost-suggestion handlers *)

Section MoreEditorFacts.

Import Editor EditorNotions.

Lemma filter_true {A} (l : list A) : filter (fun _ => true) l = l.
Proof. induction l as [|a l IH]; simpl; [|rewrite IH]; reflexivity. Qed.

(** What an event does to the timers that wait: some are taken away, and
    at most one is armed, with the next id. *)
Lemma timers_step (s : State) (e : Event) :
  exists f,
    (timers (step s e) = filter f (timers s)
     /\ nextTimer (step s e) = nextTimer s)
    \/ (exists x,
           timer_id x = nextTimer s
           /\ nextTimer (step s e) = nextTimer s + 1
           /\ timers (step s e) = enqueue x (filter f (timers s))
           /\ match callback x with
              | GhostCallback v =>
                  isComposing s = false /\ exists c, e = Input v c
              | CursorToEnd _ => True
              end).
Proof.
  destruct e as [value cursor|key|cursor| | |ms|r result].
  - destruct s as [lc gs ic ref pu sm ss nw nt ts pd cs].
    unfold step, handleInput; simpl.
    destruct ic, ref as [id|]; simpl; try destruct (id =? 0); simpl.
    + exists (fun _ => true). left. rewrite filter_true. auto.
    + eexists. left. split; reflexivity.
    + exists (fun _ => true). left. rewrite filter_true. auto.
    + exists (fun _ => true). right. rewrite filter_true.
      eexists. repeat split; simpl; eauto.
    + eexists. right. eexists. repeat split; simpl; eauto.
    + exists (fun _ => true). right. rewrite filter_true.
      eexists. repeat split; simpl; eauto.
  - destruct s as [lc gs ic ref pu sm ss nw nt ts pd cs].
    unfold step, handleKeyDown; simpl.
    exists (fun _ => true). rewrite filter_true.
    destruct key, gs as [g|]; simpl; auto.
    right. eexists. repeat split; simpl; eauto.
  - exists (fun _ => true). left. rewrite filter_true. auto.
  - exists (fun _ => true). left. rewrite filter_true. auto.
  - exists (fun _ => true). left. rewrite filter_true. auto.
  - unfold step, fire_due. rewrite partition_as_filter.
    match goal with
    | |- context [fold_left ?g ?ready ?s0] =>
        pose proof (run_callbacks_frame ready s0) as F
    end.
    cbv zeta in F. destruct F as (F1 & F2 & _).
    eexists. left. rewrite F1, F2. simpl. split; reflexivity.
  - exists (fun _ => true). left. rewrite filter_true.
    unfold step. destruct (find _ (pending s)) as [p|]; [|auto].
    unfold resume.
    destruct (generateGhostSuggestion_result result (cursorPos p));
      [destruct (cursorPos p =? _)|]; auto.
Qed.

Lemma NoDup_map_filter {A B} (g : A -> B) (f : A -> bool) (l : list A) :
  NoDup (map g l) -> NoDup (map g (filter f l)).
Proof.
  induction l as [|a l IH]; simpl; [auto|].
  intros H. inversion H as [|? ? Hn Hd]; subst.
  destruct (f a); simpl; [|auto]. constructor; [|auto].
  intros Hin. apply Hn. apply in_map_iff in Hin.
  destruct Hin as (b & Hb & Hin). apply filter_In in Hin.
  apply in_map_iff. exists b. tauto.
Qed.

Lemma NoDup_map_enqueue (x : Timer) (ts : list Timer) :
  NoDup (map timer_id ts) -> ~ In (timer_id x) (map timer_id ts) ->
  NoDup (map timer_id (enqueue x ts)).
Proof.
  induction ts as [|t ts IH]; simpl; intros Hd Hx.
  - constructor; [intros []|constructor].
  - inversion Hd as [|? ? Hn Hd']; subst.
    destruct (due t <=? due x); simpl.
    + constructor.
      * intros Hin. apply in_map_iff in Hin.
        destruct Hin as (b & Hb & Hin). apply In_enqueue in Hin.
        destruct Hin as [-> | Hin]; [apply Hx; left; congruence|].
        apply Hn. apply in_map_iff. exists b. tauto.
      * apply IH; tauto.
    + constructor; [simpl; tauto|]. constructor; assumption.
Qed.

(** The ids of the timers that wait are distinct. *)
Lemma timers_distinct_step (s : State) (e : Event) :
  timers_ok s -> NoDup (map timer_id (timers s)) ->
  NoDup (map timer_id (timers (step s e))).
Proof.
  intros [_ Hok] Hd.
  destruct (timers_step s e) as (f & [[-> _] | (x & Hid & _ & -> & _)]).
  - apply NoDup_map_filter, Hd.
  - apply NoDup_map_enqueue; [apply NoDup_map_filter, Hd|].
    intros Hin. apply in_map_iff in Hin. destruct Hin as (b & Hb & Hin).
    apply filter_In in Hin. destruct Hin as [Hin _].
    destruct (Hok b Hin) as (_ & Hlt & _). lia.
Qed.

Lemma timers_distinct_run (events : list Event) (s : State) :
  timers_ok s -> NoDup (map timer_id (timers s)) ->
  NoDup (map timer_id (timers (run s events))).
Proof.
  revert s; induction events as [|e events IH]; intros s Hok Hd; simpl; auto.
  apply IH; [apply timers_ok_step, Hok|apply timers_distinct_step; assumption].
Qed.

Lemma same_id_at_most_one (k : N) (l : list Timer) :
  NoDup (map timer_id l) -> (forall t, In t l -> timer_id t = k) ->
  (List.length l <= 1)%nat.
Proof.
  destruct l as [|a [|b l]]; simpl; intros Hd Hk; try lia.
  exfalso. inversion Hd as [|? ? Hn _]; subst. apply Hn.
  rewrite (Hk a), <- (Hk b); auto. left; reflexivity.
Qed.

(** At most one debounce timer waits. *)
Lemma one_ghost_timer (s : State) :
  timers_ok s -> NoDup (map timer_id (timers s)) ->
  (List.length (ghost_timers s) <= 1)%nat.
Proof.
  intros [_ Hok] Hd. unfold ghost_timers.
  destruct (ghostTimeoutRef s) as [k|] eqn:R.
  - apply (same_id_at_most_one k); [apply NoDup_map_filter, Hd|].
    intros t Hin. apply filter_In in Hin. destruct Hin as [Hin Hg].
    destruct (Hok t Hin) as (_ & _ & Href). specialize (Href Hg).
    congruence.
  - rewrite filter_all_false; [simpl; lia|].
    intros t Hin. destruct (is_ghost t) eqn:G; [|reflexivity].
    destruct (Hok t Hin) as (_ & _ & Href). specialize (Href G).
    congruence.
Qed.

(** The calls the callbacks of a list of timers issue: one for each
    debounce timer. *)
Lemma callbacks_calls (ready : list Timer) (s : State) :
  List.length
    (calls (fold_left (fun s' t => run_callback (callback t) s') ready s))
  = (List.length (calls s) + List.length (filter is_ghost ready))%nat.
Proof.
  revert s; induction ready as [|t ready IH]; intros s; [simpl; lia|].
  cbn [fold_left filter]. rewrite IH.
  unfold is_ghost at 2. destruct (callback t) as [v|len]; cbn [run_callback].
  - unfold ghostCallback. cbn [calls set_requests].
    rewrite length_app. cbn [List.length]. lia.
  - cbn [calls set_selectionStart]. lia.
Qed.

Lemma filter_filter_length {A} (f g : A -> bool) (l : list A) :
  (List.length (filter f (filter g l)) <= List.length (filter f l))%nat.
Proof.
  induction l as [|a l IH]; simpl; [lia|].
  destruct (g a), (f a) eqn:F; simpl; rewrite ?F; simpl; lia.
Qed.

Lemma step_calls_frame (s : State) (e : Event) :
  match e with
  | Elapse _ => True
  | _ => calls (step s e) = calls s
  end.
Proof.
  destruct e as [value cursor|key|cursor| | |ms|r result]; auto.
  - apply handleInput_frame.
  - apply handleKeyDown_frame.
  - unfold step. destruct (find _ (pending s)) as [p|]; [|reflexivity].
    destruct (resume_frame p result
                (set_requests
                   (filter (fun p' => negb (request p' =? r)) (pending s))
                   (calls s) s)) as (_ & -> & _).
    reflexivity.
Qed.

Lemma callbacks_calls_app (ready : list Timer) (s : State) :
  exists new,
    calls (fold_left (fun s' t => run_callback (callback t) s') ready s)
    = calls s ++ new.
Proof.
  revert s; induction ready as [|t ready IH]; intros s; cbn [fold_left].
  - exists []. rewrite app_nil_r. reflexivity.
  - destruct (IH (run_callback (callback t) s)) as (new & ->).
    destruct (callback t) as [v|len]; cbn [run_callback].
    + unfold ghostCallback. cbn [calls set_requests].
      rewrite <- app_assoc. eexists; reflexivity.
    + exists new. reflexivity.
Qed.

Lemma callbacks_from_inputs (V : list jsstring) (ready : list Timer) :
  (forall t v, In t ready -> callback t = GhostCallback v -> In v V) ->
  forall s c,
    In c (calls (fold_left (fun s' t => run_callback (callback t) s')
                   ready s)) ->
    In c (calls s) \/ In (params_text c) V.
Proof.
  induction ready as [|t ready IH]; intros HV s c Hc; cbn [fold_left] in Hc.
  - left; exact Hc.
  - apply IH in Hc; [|intros t' v Hin; apply HV; right; exact Hin].
    destruct (callback t) as [v|len] eqn:C; cbn [run_callback] in Hc.
    + unfold ghostCallback in Hc. cbn in Hc.
      destruct Hc as [Hc | Hc]; [|right; exact Hc].
      apply in_app_or in Hc. destruct Hc as [Hc | [<- | []]];
        [left; exact Hc|].
      right. simpl. apply (HV t v); [left; reflexivity|exact C].
    + exact Hc.
Qed.

Lemma from_inputs_step (V : list jsstring) (s : State) (e : Event) :
  from_inputs V s -> from_inputs (V ++ input_values [e]) (step s e).
Proof.
  intros [Ht Hc]. split.
  - intros t v Hin Hcb.
    destruct (timers_step s e) as (f & [[E _] | (x & _ & _ & E & Hx)]);
      rewrite E in Hin.
    + apply filter_In in Hin. apply in_or_app. left.
      apply (Ht t v); tauto.
    + apply In_enqueue in Hin. destruct Hin as [-> | Hin].
      * rewrite Hcb in Hx. destruct Hx as (_ & c & ->).
        apply in_or_app. right. left. reflexivity.
      * apply filter_In in Hin. apply in_or_app. left.
        apply (Ht t v); tauto.
  - intros c Hin.
    assert (Hold : In c (calls s) ->
                   In (params_text c) (V ++ input_values [e])).
    { intros H. apply in_or_app. left. apply Hc, H. }
    pose proof (step_calls_frame s e) as F.
    destruct e as [value cursor|key|cursor| | |ms|r result];
      try (rewrite F in Hin; apply Hold, Hin).
    unfold step, fire_due in Hin. rewrite partition_as_filter in Hin.
    apply (callbacks_from_inputs V) in Hin.
    + destruct Hin as [Hin | H1]; [apply Hold, Hin|].
      apply in_or_app; auto.
    + intros t v Hin' Hcb. apply filter_In in Hin'.
      apply (Ht t v); tauto.
Qed.

Lemma from_inputs_run (events : list Event) :
  forall (V : list jsstring) (s : State),
    from_inputs V s -> from_inputs (V ++ input_values events) (run s events).
Proof.
  induction events as [|e events IH]; intros V s H.
  - simpl. rewrite app_nil_r. exact H.
  - replace (input_values (e :: events))
      with (input_values [e] ++ input_values events)
      by (unfold input_values; simpl; rewrite app_nil_r; reflexivity).
    rewrite app_assoc. apply IH, from_inputs_step, H.
Qed.

Lemma callbacks_requests_ok (ready : list Timer) :
  forall s,
    (forall p, In p (pending s) -> exists c, In c (calls s) /\ call_of p c) ->
    let s' := fold_left (fun s' t => run_callback (callback t) s') ready s in
    (forall p, In p (pending s') ->
               exists c, In c (calls s') /\ call_of p c)
    /\ incl (calls s) (calls s').
Proof.
  induction ready as [|t ready IH]; intros s H; cbn [fold_left].
  - split; [exact H|apply incl_refl].
  - assert (H1 : (forall p, In p (pending (run_callback (callback t) s)) ->
                    exists c, In c (calls (run_callback (callback t) s))
                              /\ call_of p c)
                 /\ incl (calls s) (calls (run_callback (callback t) s))).
    { destruct (callback t) as [v|len]; cbn [run_callback].
      - unfold ghostCallback. cbn [pending calls set_requests]. split.
        + intros p Hin. apply in_app_or in Hin.
          destruct Hin as [Hin | [<- | []]].
          * destruct (H p Hin) as (c & Hc & Hpc). exists c. split; auto.
            apply in_or_app; auto.
          * eexists. split; [apply in_or_app; right; left; reflexivity|].
            split; reflexivity.
        + apply incl_appl, incl_refl.
      - split; [exact H|apply incl_refl]. }
    destruct H1 as [H1 H2]. destruct (IH _ H1) as [H3 H4].
    split; [exact H3|]. eapply incl_tran; eassumption.
Qed.

Lemma handleKeyDown_ghost (key : Key) (s : State) :
  ghostSuggestion (handleKeyDown key s) = None
  \/ ghostSuggestion (handleKeyDown key s) = ghostSuggestion s.
Proof.
  destruct s as [lc gs ic ref pu sm ss nw nt ts pd cs].
  destruct key, gs as [g|]; simpl; auto.
Qed.

Lemma requests_ok_init (content purpose selectedModel : jsstring) :
  requests_ok (init content purpose selectedModel).
Proof. split; [intros p []|intros g H; discriminate H]. Qed.

Lemma requests_ok_step (s : State) (e : Event) :
  requests_ok s -> requests_ok (step s e).
Proof.
  intros [Hp Hg].
  destruct e as [value cursor|key|cursor| | |ms|r result];
    try (split; assumption).
  - destruct (handleInput_frame value cursor s)
      as (E1 & E2 & _ & _ & _ & _ & _ & _ & E3).
    unfold step, requests_ok. rewrite E1, E2, E3.
    split; [exact Hp|intros g H; discriminate H].
  - destruct (handleKeyDown_frame key s) as (E1 & E2 & _).
    unfold step, requests_ok. rewrite E1, E2. split; [exact Hp|].
    destruct (handleKeyDown_ghost key s) as [-> | ->];
      [intros g H; discriminate H|exact Hg].
  - unfold step, fire_due. rewrite partition_as_filter.
    match goal with
    | |- requests_ok (fold_left ?g ?ready ?s0) =>
        pose proof (run_callbacks_frame ready s0) as F;
        pose proof (callbacks_requests_ok ready s0 Hp) as G
    end.
    cbv zeta in F, G. destruct F as (_ & _ & _ & F & _).
    destruct G as [G1 G2]. split; [exact G1|].
    rewrite F. intros g H. destruct (Hg g H) as (Hne & c & Hc & Hpos).
    split; [exact Hne|]. exists c. split; [apply G2, Hc|exact Hpos].
  - unfold step. destruct (find _ (pending s)) as [p|] eqn:Fp;
      [|split; assumption].
    apply find_some in Fp. destruct Fp as [Fp _].
    destruct (resume_frame p result
                (set_requests
                   (filter (fun p' => negb (request p' =? r)) (pending s))
                   (calls s) s)) as (E1 & E2 & _).
    unfold requests_ok. rewrite E1, E2. cbn [pending calls set_requests].
    split.
    + intros q Hq. apply filter_In in Hq. apply Hp; tauto.
    + unfold resume, generateGhostSuggestion_result.
      destruct result as [|sug]; [exact Hg|].
      destruct (jsstring_eqb sug []); cbn [negb andb]; [exact Hg|].
      destruct (jsstring_eqb (trim sug) []) eqn:T; cbn [negb]; [exact Hg|].
      destruct (cursorPos p =? N.of_nat (List.length (newContent p))) eqn:C;
        [|exact Hg].
      cbn [ghostSuggestion setGhostSuggestion].
      intros g H; injection H as <-. cbn [text position]. split.
      * intros E. rewrite E in T. discriminate T.
      * destruct (Hp p Fp) as (c & Hc & Ht & Hcur). exists c.
        apply N.eqb_eq in C. rewrite Ht, Hcur. auto.
Qed.

Lemma requests_ok_run (events : list Event) (s : State) :
  requests_ok s -> requests_ok (run s events).
Proof.
  revert s; induction events as [|e events IH]; intros s H; simpl; auto.
  apply IH, requests_ok_step, H.
Qed.

Lemma trimStart_blank (s : jsstring) :
  forallb is_trim_space s = true -> trimStart s = [].
Proof.
  induction s as [|c s IH]; [reflexivity|].
  cbn [forallb trimStart]. intros H. apply andb_true_iff in H.
  destruct H as [-> H]. apply IH, H.
Qed.

Lemma trim_blank (s : jsstring) :
  forallb is_trim_space s = true -> trim s = [].
Proof.
  intros H. unfold trim. rewrite (trimStart_blank s H). reflexivity.
Qed.

Lemma input_composing_timers (value : jsstring) (cursor : N) (s : State) :
  timers_ok s -> isComposing s = true ->
  forall t, In t (timers (handleInput value cursor s)) -> is_ghost t = false.
Proof.
  intros [_ Hok] Hc t Hin.
  destruct s as [lc gs ic ref pu sm ss nw nt ts pd cs]; simpl in *.
  subst ic. unfold handleInput in Hin; simpl in Hin.
  destruct (is_ghost t) eqn:G; [exfalso|reflexivity].
  destruct ref as [id|]; [destruct (id =? 0) eqn:E0|]; simpl in Hin.
  - destruct (Hok t Hin) as (Hpos & _ & Href). specialize (Href G).
    apply N.eqb_eq in E0. injection Href as ->. lia.
  - apply filter_In in Hin. destruct Hin as [Hin Hne].
    destruct (Hok t Hin) as (_ & _ & Href). specialize (Href G).
    injection Href as ->. rewrite N.eqb_refl in Hne. discriminate.
  - destruct (Hok t Hin) as (_ & _ & Href). specialize (Href G).
    discriminate.
Qed.

(** The cursor after the callbacks of timers of which one moves it to
    [len] and the others are debounce timers. *)
Lemma callbacks_cursor (len : N) (ready : list Timer) :
  (forall t, In t ready ->
             is_ghost t = true \/ callback t = CursorToEnd len) ->
  forall s,
    (selectionStart s = len
     \/ exists t, In t ready /\ callback t = CursorToEnd len) ->
    selectionStart
      (fold_left (fun s' t => run_callback (callback t) s') ready s) = len.
Proof.
  induction ready as [|t ready IH]; intros Hall s H; cbn [fold_left].
  - destruct H as [H | (t & [] & _)]. exact H.
  - apply IH; [intros t' Hin; apply Hall; right; exact Hin|].
    destruct (Hall t (or_introl eq_refl)) as [G | C].
    + unfold is_ghost in G. destruct (callback t) as [v|l] eqn:C;
        [|discriminate]. cbn [run_callback].
      destruct H as [H | (t' & [<- | Hin] & C')].
      * left. exact H.
      * congruence.
      * right. exists t'. auto.
    + rewrite C. left. reflexivity.
Qed.

Lemma pending_ok_callbacks (ready : list Timer) (s : State) :
  pending_ok s ->
  pending_ok (fold_left (fun s' t => run_callback (callback t) s') ready s).
Proof.
  revert s; induction ready as [|t ready IH]; intros s H; cbn [fold_left];
    [exact H|].
  apply IH. destruct (callback t) as [v|len]; cbn [run_callback]; [|exact H].
  unfold ghostCallback, pending_ok. cbn [pending calls set_requests].
  intros p Hin. rewrite length_app. cbn [List.length].
  apply in_app_or in Hin. destruct Hin as [Hin | [<- | []]].
  - specialize (H p Hin). lia.
  - cbn [request]. lia.
Qed.

Lemma pending_ok_step (s : State) (e : Event) :
  pending_ok s -> pending_ok (step s e).
Proof.
  intros H. destruct e as [value cursor|key|cursor| | |ms|r result];
    try exact H.
  - destruct (handleInput_frame value cursor s) as (Hp & Hc & _).
    unfold step, pending_ok. rewrite Hp, Hc. exact H.
  - destruct (handleKeyDown_frame key s) as (Hp & Hc & _).
    unfold step, pending_ok. rewrite Hp, Hc. exact H.
  - unfold step, fire_due.
    destruct (partition _ (timers (set_now (now s + ms) s)))
      as [ready waiting].
    apply pending_ok_callbacks. exact H.
  - unfold step. destruct (find _ (pending s)) as [p|]; [|exact H].
    unfold pending_ok.
    destruct (resume_frame p result
                (set_requests
                   (filter (fun p' => negb (request p' =? r)) (pending s))
                   (calls s) s)) as (-> & -> & _).
    cbn [pending calls set_requests]. intros q Hq.
    apply filter_In in Hq. apply H; tauto.
Qed.

Lemma pending_ok_run (events : list Event) (s : State) :
  pending_ok s -> pending_ok (run s events).
Proof.
  revert s; induction events as [|e events IH]; intros s H; simpl; auto.
  apply IH, pending_ok_step, H.
Qed.

Lemma find_app_r {A} (f : A -> bool) (l : list A) (x : A) :
  (forall a, In a l -> f a = false) -> f x = true ->
  find f (l ++ [x]) = Some x.
Proof.
  intros Hl Hx. induction l as [|a l IH]; cbn [app find].
  - rewrite Hx. reflexivity.
  - rewrite (Hl a (or_introl eq_refl)). apply IH.
    intros b Hb. apply Hl. right. exact Hb.
Qed.

Lemma run_app (s : State) (events events' : list Event) :
  run s (events ++ events') = run (run s events) events'.
Proof. apply fold_left_app. Qed.

(** A burst ends with its last input event. *)
Lemma burst_last (first : jsstring * N) (rest : list (N * jsstring * N)) :
  exists events,
    burst first rest
    = events ++ [Input (fst (last_input first rest))
                   (snd (last_input first rest))].
Proof.
  unfold burst.
  revert first; induction rest as [|[[gap value] cursor] rest IH];
    intros first.
  - exists []. reflexivity.
  - destruct (IH (value, cursor)) as (events & E). cbn [fst snd] in E.
    exists (Input (fst first) (snd first) :: Elapse gap :: events).
    unfold last_input in *. cbn [map]. rewrite last_cons.
    cbn [flat_map app]. rewrite E. reflexivity.
Qed.

End MoreEditorFacts.

Section MoreEditorProperties.

Import Editor EditorNotions.

(** X7: the suggestion calls are issued by the debounce timer alone: in
    every state the component reaches at most one debounce timer waits; no
    event other than the passing of time issues a call, and the passing of
    time issues at most one. *)
Theorem one_call_at_a_time :
  forall (content0 purpose0 model0 : jsstring) (history : list Event)
         (e : Event),
    let s := run (init content0 purpose0 model0) history in
    (List.length (ghost_timers s) <= 1)%nat
    /\ match e with
       | Elapse _ =>
           (List.length (calls (step s e)) <= List.length (calls s) + 1)%nat
       | _ => calls (step s e) = calls s
       end.
Proof.
  intros content0 purpose0 model0 history e s.
  assert (Hok : timers_ok s) by apply timers_ok_run, timers_ok_init.
  assert (Hd : NoDup (map timer_id (timers s))).
  { apply timers_distinct_run; [apply timers_ok_init|constructor]. }
  pose proof (one_ghost_timer s Hok Hd) as H1.
  split; [exact H1|].
  pose proof (step_calls_frame s e) as F.
  destruct e as [value cursor|key|cursor| | |ms|r result]; try exact F.
  unfold step, fire_due. rewrite partition_as_filter, callbacks_calls.
  cbn [timers set_now set_timers calls].
  pose proof (filter_filter_length is_ghost
                (fun t => due t <=? now s + ms) (timers s)) as L.
  unfold ghost_timers in H1. simpl in *. lia.
Qed.

(** X8: every suggestion call asks for a content that an input event
    before it carried: no call is made for a text the user did not
    type. *)
Theorem calls_come_from_inputs :
  forall (content0 purpose0 model0 : jsstring) (history : list Event)
         (c : SuggestionParams),
    In c (calls (run (init content0 purpose0 model0) history)) ->
    In (params_text c) (input_values history).
Proof.
  intros content0 purpose0 model0 history c Hin.
  assert (H0 : from_inputs [] (init content0 purpose0 model0)).
  { split; [intros t v []|intros c' []]. }
  destruct (from_inputs_run history _ _ H0) as [_ H].
  apply (H c Hin).
Qed.

Lemma calls_come_from_inputs_witness :
  In (str "ab")
    (input_values [Input (str "a") 1; Elapse 100; Input (str "ab") 2;
                   KeyDown Escape; Elapse 1500]).
Proof.
  refine (calls_come_from_inputs [] (str "writing") (str "m")
            [Input (str "a") 1; Elapse 100; Input (str "ab") 2;
             KeyDown Escape; Elapse 1500]
            {| params_text := str "ab"; cursorPosition := 2;
               params_purpose := str "writing"; model := str "m" |} _).
  vm_compute. left. reflexivity.
Defined.

(** X9: a suggestion that is displayed is never blank, and it answers a
    call that was issued with the cursor at the end of the text it
    carried. *)
Theorem displayed_suggestion_was_requested :
  forall (content0 purpose0 model0 : jsstring) (history : list Event)
         (g : GhostSuggestion),
    let s := run (init content0 purpose0 model0) history in
    ghostSuggestion s = Some g ->
    trim (text g) <> []
    /\ exists c,
         In c (calls s)
         /\ cursorPosition c = position g
         /\ N.of_nat (List.length (params_text c)) = position g.
Proof.
  intros content0 purpose0 model0 history g s H.
  assert (Hok : requests_ok s) by apply requests_ok_run, requests_ok_init.
  destruct Hok as [_ Hg]. apply Hg, H.
Qed.

Lemma displayed_suggestion_was_requested_witness :
  trim (str " X") <> []
  /\ exists c,
       In c (calls (run (init [] (str "writing") (str "m"))
                      [Input (str "ab") 2; Elapse 1500;
                       Resolve 0 (Suggestion (str " X"))]))
       /\ cursorPosition c = 2
       /\ N.of_nat (List.length (params_text c)) = 2.
Proof.
  exact (displayed_suggestion_was_requested [] (str "writing") (str "m")
           [Input (str "ab") 2; Elapse 1500;
            Resolve 0 (Suggestion (str " X"))]
           {| text := str " X"; position := 2 |} eq_refl).
Defined.

(** X10: a call that fails, and a suggestion that is empty or holds white
    space only, change nothing that the user sees: the suggestion
    displayed, the content and the cursor stay, no timer is touched and no
    call is issued. *)
Theorem blank_result_changes_nothing :
  forall (s : State) (r : N) (result : ApiResult),
    blank result = true ->
    let s' := step s (Resolve r result) in
    ghostSuggestion s' = ghostSuggestion s
    /\ localContent s' = localContent s
    /\ selectionStart s' = selectionStart s
    /\ timers s' = timers s
    /\ calls s' = calls s.
Proof.
  intros s r result Hb s'. subst s'. unfold step.
  destruct (find _ (pending s)) as [p|]; [|repeat split].
  assert (E : generateGhostSuggestion_result result (cursorPos p) = None).
  { destruct result as [|sug]; [reflexivity|]. simpl in Hb.
    unfold generateGhostSuggestion_result.
    rewrite (trim_blank sug Hb). simpl. rewrite andb_false_r. reflexivity. }
  unfold resume. rewrite E. repeat split.
Qed.

Lemma blank_result_changes_nothing_witness :
  let s :=
    run (init [] (str "writing") (str "m"))
      [Input (str "ab") 2; Elapse 1500] in
  ghostSuggestion (step s (Resolve 0 (Suggestion [32; 10; 9])))
  = ghostSuggestion s.
Proof.
  exact (proj1 (blank_result_changes_nothing
                  (run (init [] (str "writing") (str "m"))
                     [Input (str "ab") 2; Elapse 1500])
                  0 (Suggestion [32; 10; 9]) eq_refl)).
Defined.

(** X11: an input event during a composition takes the debounce timer
    away and arms none: whatever time passes after it, no call is issued
    for it. *)
Theorem composing_input_issues_no_call :
  forall (content0 purpose0 model0 : jsstring) (history : list Event)
         (value : jsstring) (cursor ms : N),
    let s := run (init content0 purpose0 model0) history in
    isComposing s = true ->
    ghost_timers (step s (Input value cursor)) = []
    /\ calls (run s [Input value cursor; Elapse ms]) = calls s.
Proof.
  intros content0 purpose0 model0 history value cursor ms s Hc.
  assert (Hok : timers_ok s) by apply timers_ok_run, timers_ok_init.
  pose proof (input_composing_timers value cursor s Hok Hc) as Hg.
  split.
  - unfold ghost_timers. apply filter_all_false. exact Hg.
  - destruct (handleInput_frame value cursor s) as (_ & Hcalls & _).
    cbn [run fold_left]. rewrite <- Hcalls.
    change (step s (Input value cursor)) with (handleInput value cursor s).
    generalize dependent (handleInput value cursor s). intros s1 Hg _.
    unfold step, fire_due. rewrite partition_as_filter.
    match goal with
    | |- calls (fold_left ?g ?ready ?s0) = _ =>
        destruct (callbacks_calls_app ready s0) as (new & E);
        pose proof (callbacks_calls ready s0) as L
    end.
    rewrite E in *. rewrite length_app in L.
    rewrite (filter_all_false is_ghost) in L.
    + destruct new; [|cbn [List.length] in L; lia]. rewrite app_nil_r.
      reflexivity.
    + intros t Hin. apply filter_In in Hin. apply Hg. tauto.
Qed.

Lemma composing_input_issues_no_call_witness :
  let s :=
    run (init [] (str "writing") (str "m"))
      [Input (str "a") 1; CompositionStart] in
  ghost_timers (step s (Input (str "ab") 2)) = []
  /\ calls (run s [Input (str "ab") 2; Elapse 5000]) = calls s.
Proof.
  exact (composing_input_issues_no_call [] (str "writing") (str "m")
           [Input (str "a") 1; CompositionStart] (str "ab") 2 5000 eq_refl).
Defined.

(** X12: accepting the displayed suggestion with Tab appends its text to
    the content and clears the display; once time passes, the cursor
    stands at the end of the new content (when no cursor move of an
    earlier accept still waits). *)
Theorem tab_accept_moves_cursor_to_end :
  forall (s : State) (g : GhostSuggestion) (ms : N),
    ghostSuggestion s = Some g ->
    forallb is_ghost (timers s) = true ->
    let s' := run s [KeyDown Tab; Elapse ms] in
    localContent s' = localContent s ++ text g
    /\ ghostSuggestion s' = None
    /\ selectionStart s' = N.of_nat (List.length (localContent s')).
Proof.
  intros s g ms Hg Hall s'. subst s'. cbn [run fold_left].
  set (len := N.of_nat (List.length (localContent s ++ text g))).
  assert (E : exists x,
             callback x = CursorToEnd len /\ due x = now s + 0
             /\ timers (step s (KeyDown Tab)) = enqueue x (timers s)
             /\ localContent (step s (KeyDown Tab))
                = localContent s ++ text g
             /\ ghostSuggestion (step s (KeyDown Tab)) = None
             /\ now (step s (KeyDown Tab)) = now s).
  { subst len. destruct s as [lc gs ic ref pu sm ss nw nt ts pd cs].
    simpl in Hg. subst gs. eexists. cbn. repeat split; reflexivity. }
  destruct E as (x & Hx & Hdue & Ht & Hl & Hgs & Hnow).
  generalize dependent (step s (KeyDown Tab)). intros s1 Ht Hl Hgs Hnow.
  unfold step, fire_due. rewrite partition_as_filter.
  match goal with
  | |- context [fold_left ?f ?ready ?s0] =>
      pose proof (run_callbacks_frame ready s0) as F;
      pose proof (callbacks_cursor len ready) as C;
      specialize (fun H => C H s0)
  end.
  cbv zeta in F. destruct F as (_ & _ & _ & F1 & F2 & _).
  rewrite F1, F2. cbn [localContent ghostSuggestion set_timers set_now].
  rewrite Hl, Hgs. repeat split.
  apply C.
  - intros t Hin. apply filter_In in Hin. destruct Hin as [Hin _].
    cbn [timers set_now] in Hin. rewrite Ht in Hin.
    apply In_enqueue in Hin. destruct Hin as [-> | Hin].
    + right. exact Hx.
    + left. rewrite forallb_forall in Hall. apply Hall, Hin.
  - right. exists x. split; [|exact Hx].
    apply filter_In. cbn [timers now set_now]. split.
    + rewrite Ht. apply In_enqueue. left. reflexivity.
    + apply N.leb_le. lia.
Qed.

Lemma tab_accept_moves_cursor_to_end_witness :
  let s :=
    run (init [] (str "writing") (str "m"))
      [Input (str "ab") 2; Elapse 1500; Resolve 0 (Suggestion (str "cd"))] in
  let g := {| text := str "cd"; position := 2 |} in
  let s' := run s [KeyDown Tab; Elapse 0] in
  localContent s' = localContent s ++ text g
  /\ ghostSuggestion s' = None
  /\ selectionStart s' = N.of_nat (List.length (localContent s')).
Proof.
  intros s g.
  apply (tab_accept_moves_cursor_to_end s g 0); vm_compute; reflexivity.
Defined.


(** X20: the whole way of a suggestion.  The burst starts outside a
    composition, with no cursor move of an earlier Tab accept still
    waiting; after its last input event nothing happens but the passing of
    at least the debounce interval, and then the answer to the one call
    issued arrives.  That answer is displayed exactly when it is not blank
    and the last input event left the cursor at the end of its content; it
    is displayed at that cursor position.  Otherwise nothing is
    displayed. *)
Theorem suggestion_after_pause :
  forall (content0 purpose0 model0 : jsstring) (history : list Event)
         (first : jsstring * N) (rest : list (N * jsstring * N))
         (wait : N) (suggestion : jsstring),
    let s := run (init content0 purpose0 model0) history in
    isComposing s = false ->
    forallb is_ghost (timers s) = true ->
    rapid rest = true ->
    debounce <= wait ->
    let final := last_input first rest in
    let paused := step (run s (burst first rest)) (Elapse wait) in
    ghostSuggestion
      (step paused
         (Resolve (N.of_nat (List.length (calls s))) (Suggestion suggestion)))
    = if negb (jsstring_eqb (trim suggestion) [])
         && (snd final =? N.of_nat (List.length (fst final)))
      then Some {| text := suggestion; position := snd final |}
      else None.
Proof.
  intros content0 purpose0 model0 history first rest wait suggestion s
         Hc Hg Hr Hw final paused.
  assert (Hok : timers_ok s) by apply timers_ok_run, timers_ok_init.
  pose proof (input_arms (fst first) (snd first) s Hok Hg Hc) as Ha.
  pose proof (armed_burst s rest _ first Ha Hr) as Hb.
  change (armed s (run s (burst first rest)) (fst final) (snd final)) in Hb.
  assert (Hpo : pending_ok (run s (burst first rest))).
  { apply pending_ok_run, pending_ok_run. intros p []. }
  assert (Hnone : ghostSuggestion (run s (burst first rest)) = None).
  { destruct (burst_last first rest) as (events & ->).
    rewrite run_app. cbn [run fold_left].
    apply (handleInput_frame _ _ (run s events)). }
  subst paused. generalize dependent (run s (burst first rest)).
  intros typed (id & Ht & _ & _ & _ & Hs & _ & Hcs & Hp & _) Hpo Hnone.
  rewrite (elapse_fires typed _ _ _ wait Ht) by lia.
  set (p := {| request := N.of_nat (List.length (calls typed));
               newContent := fst final; cursorPos := snd final |}).
  rewrite (resolve_displays _ _ p).
  - unfold ghostCallback. cbn [ghostSuggestion set_requests set_timers
                                 set_now].
    rewrite Hnone. reflexivity.
  - unfold in_flight, ghostCallback.
    cbn [pending calls selectionStart set_requests set_timers set_now].
    rewrite Hs, <- Hcs. fold p. apply find_app_r.
    + intros q Hq. specialize (Hpo q Hq). apply N.eqb_neq. lia.
    + apply N.eqb_refl.
Qed.

Lemma suggestion_after_pause_witness :
  let s := run (init [] (str "writing") (str "m")) [] in
  let paused :=
    step (run s (burst (str "a", 1) [(200, str "ab", 2)])) (Elapse 1500) in
  ghostSuggestion
    (step paused
       (Resolve (N.of_nat (List.length (calls s))) (Suggestion (str " c"))))
  = if negb (jsstring_eqb (trim (str " c")) [])
       && (snd (last_input (str "a", 1) [(200, str "ab", 2)])
           =? N.of_nat
                (List.length
                   (fst (last_input (str "a", 1) [(200, str "ab", 2)]))))
    then Some {| text := str " c";
                 position :=
                   snd (last_input (str "a", 1) [(200, str "ab", 2)]) |}
    else None.
Proof.
  apply (suggestion_after_pause [] (str "writing") (str "m") []
           (str "a", 1) [(200, str "ab", 2)] 1500 (str " c"));
    vm_compute; try reflexivity. discriminate.
Defined.

End MoreEditorProperties.

(** * The word count *)

Section WordFacts.

Import Stream Lines Words.

Lemma split_spaces_not_nil (g : bool) (s : jsstring) :
  split_spaces g s <> [].
Proof.
  destruct s as [|c s]; simpl; [discriminate|].
  destruct (is_trim_space c); [destruct g; [|discriminate]|].
  - revert c. induction s as [|c' s IH]; intros c; simpl; [discriminate|].
    destruct (is_trim_space c'); [apply (IH c')|].
    destruct (split_spaces false s); discriminate.
  - destruct (split_spaces false s); discriminate.
Qed.

Lemma split_spaces_word (g : bool) (c : N) (s : jsstring) :
  is_trim_space c = false ->
  exists piece pieces,
    split_spaces false s = piece :: pieces
    /\ split_spaces g (c :: s) = (c :: piece) :: pieces.
Proof.
  intros H. cbn [split_spaces]. rewrite H.
  destruct (split_spaces false s) as [|piece pieces] eqn:E.
  - destruct (split_spaces_not_nil _ _ E).
  - exists piece, pieces. auto.
Qed.

(** The words do not depend on whether white space came before. *)
Lemma words_gap (s : jsstring) :
  filter nonempty (split_spaces true s) = words s.
Proof.
  unfold words. destruct s as [|c s]; [reflexivity|].
  cbn [split_spaces]. destruct (is_trim_space c); reflexivity.
Qed.

Lemma words_space (c : N) (s : jsstring) :
  is_trim_space c = true -> words (c :: s) = words s.
Proof.
  intros H. unfold words at 1. cbn [split_spaces]. rewrite H.
  cbn [filter nonempty jsstring_eqb negb]. apply words_gap.
Qed.

(** White space between two texts separates their words. *)
Lemma words_app (c : N) (a b : jsstring) :
  is_trim_space c = true ->
  words (a ++ c :: b) = words a ++ words b
  /\ exists piece pieces pieces',
       split_spaces false a = piece :: pieces
       /\ split_spaces false (a ++ c :: b) = piece :: pieces'
       /\ filter nonempty pieces' = filter nonempty pieces ++ words b.
Proof.
  intros Hc. induction a as [|x a [IH1 (p & ps & ps' & E1 & E2 & E3)]].
  - split.
    + cbn [app]. rewrite (words_space c b Hc). reflexivity.
    + exists [], [], (split_spaces true b). cbn [app split_spaces].
      rewrite Hc. repeat split. apply words_gap.
  - destruct (is_trim_space x) eqn:X.
    + split.
      * cbn [app]. rewrite !(words_space x _ X). exact IH1.
      * exists [], (split_spaces true a), (split_spaces true (a ++ c :: b)).
        cbn [app split_spaces]. rewrite X. repeat split.
        rewrite !words_gap. exact IH1.
    + assert (W : forall s p' ps'',
                 split_spaces false s = p' :: ps'' ->
                 split_spaces false (x :: s) = (x :: p') :: ps'').
      { intros s p' ps'' E. cbn [split_spaces]. rewrite X, E. reflexivity. }
      split.
      * unfold words. cbn [app]. rewrite (W _ _ _ E1), (W _ _ _ E2).
        cbn [filter nonempty jsstring_eqb negb]. rewrite E3. reflexivity.
      * exists (x :: p), ps, ps'. cbn [app].
        rewrite (W _ _ _ E1), (W _ _ _ E2). auto.
Qed.

Lemma words_word (w : jsstring) :
  is_word w = true -> words w = [w].
Proof.
  unfold is_word. intros H. apply andb_true_iff in H. destruct H as [Hn Hw].
  assert (G : forall s, forallb (fun c => negb (is_trim_space c)) s = true ->
                        split_spaces false s = [s]).
  { induction s as [|c s IH]; [reflexivity|].
    cbn [forallb split_spaces]. intros H. apply andb_true_iff in H.
    destruct H as [Hc Hs]. apply negb_true_iff in Hc.
    rewrite Hc, (IH Hs). reflexivity. }
  unfold words. rewrite (G w Hw). cbn [filter]. rewrite Hn. reflexivity.
Qed.

End WordFacts.

Section WordProperties.

Import Stream Lines Words.

(** X13: the word count is zero exactly for a content that is empty or
    holds white space only. *)
Theorem no_words_iff_blank :
  forall content : jsstring,
    wordCount content = 0%nat <-> forallb is_trim_space content = true.
Proof.
  intros content. unfold wordCount.
  induction content as [|c s IH]; [split; reflexivity|].
  cbn [forallb]. destruct (is_trim_space c) eqn:C.
  - rewrite (words_space c s C). exact IH.
  - destruct (split_spaces_word false c s C) as (p & ps & _ & E).
    unfold words. rewrite E. cbn. split; discriminate.
Qed.

(** X14: white space between two texts adds their word counts: the count
    of [a], a white space character and [b] is the count of [a] plus the
    count of [b]. *)
Theorem word_count_additive :
  forall (a b : jsstring) (c : N),
    is_trim_space c = true ->
    wordCount (a ++ c :: b) = (wordCount a + wordCount b)%nat.
Proof.
  intros a b c H. unfold wordCount.
  rewrite (proj1 (words_app c a b H)). apply length_app.
Qed.

Lemma no_words_iff_blank_witness :
  wordCount [32; 10; 9] = 0%nat.
Proof.
  apply (proj2 (no_words_iff_blank [32; 10; 9])). reflexivity.
Defined.

Lemma word_count_additive_witness :
  wordCount (str "to be" ++ 10 :: str " or not") = (2 + 2)%nat.
Proof.
  exact (word_count_additive (str "to be") (str " or not") 10 eq_refl).
Defined.

(** X15: words joined with single spaces are found again: splitting gives
    back the very words, so their count is the number of words joined. *)
Theorem words_of_joined_words :
  forall ws : list jsstring,
    forallb is_word ws = true ->
    words (join 32 ws) = ws
    /\ wordCount (join 32 ws) = List.length ws.
Proof.
  intros ws H.
  assert (E : words (join 32 ws) = ws).
  { induction ws as [|w ws IH]; [reflexivity|].
    cbn [forallb] in H. apply andb_true_iff in H. destruct H as [Hw Hws].
    destruct ws as [|w' ws].
    - apply words_word, Hw.
    - change (join 32 (w :: w' :: ws)) with (w ++ 32 :: join 32 (w' :: ws)).
      rewrite (proj1 (words_app 32 w _ eq_refl)), (words_word w Hw),
        (IH Hws).
      reflexivity. }
  split; [exact E|]. unfold wordCount. rewrite E. reflexivity.
Qed.

Lemma words_of_joined_words_witness :
  words (join 32 [str "Begin"; str "writing..."])
  = [str "Begin"; str "writing..."]
  /\ wordCount (join 32 [str "Begin"; str "writing..."]) = 2%nat.
Proof.
  exact (words_of_joined_words [str "Begin"; str "writing..."] eq_refl).
Defined.

End WordProperties.

(** * The base URL of the API *)

Section ApiBaseFacts.

Import ApiBase.

Lemma includes_cons (c : N) (s pat : jsstring) :
  includes (c :: s) pat = false ->
  startsWith (c :: s) pat = false /\ includes s pat = false.
Proof. cbn [includes]. apply orb_false_iff. Qed.

(** The text [-3000.] cannot begin before the end of a text that does not
    hold it and end after it: it has no proper prefix that is its suffix. *)
Lemma no_straddle (a b : jsstring) :
  a <> [] -> startsWith a (str "-3000.") = false ->
  startsWith (a ++ (str "-3000.") ++ b) (str "-3000.") = false.
Proof.
  intros Ha H.
  destruct a as [|c1 [|c2 [|c3 [|c4 [|c5 [|c6 a]]]]]];
    [contradiction| | | | | |exact H];
    cbn; repeat (destruct (_ =? _)); reflexivity.
Qed.

Lemma replace_first_port (a b : jsstring) :
  includes a (str "-3000.") = false ->
  replace_first (a ++ (str "-3000.") ++ b) (str "-3000.") (str "-8000.")
  = a ++ (str "-8000.") ++ b.
Proof.
  induction a as [|c a IH]; intros H; [reflexivity|].
  apply includes_cons in H. destruct H as [H1 H2].
  change (replace_first ((c :: a) ++ (str "-3000.") ++ b) (str "-3000.") (str "-8000."))
    with (if startsWith ((c :: a) ++ (str "-3000.") ++ b) (str "-3000.")
          then (str "-8000.") ++ skipn 6 ((c :: a) ++ (str "-3000.") ++ b)
          else c :: replace_first (a ++ (str "-3000.") ++ b) (str "-3000.") (str "-8000.")).
  rewrite (no_straddle (c :: a) b) by (discriminate || exact H1).
  rewrite (IH H2). reflexivity.
Qed.

(** A VITE_API_URL that is set and not empty is the result, whole. *)
Lemma getAPIBaseURL_explicit (c : N) (url : jsstring)
  (w : option Location) :
  getAPIBaseURL {| VITE_API_URL := Some (c :: url); window := w |}
  = c :: url.
Proof. reflexivity. Qed.

Lemma replace_first_absent (s pat rep : jsstring) :
  includes s pat = false -> replace_first s pat rep = s.
Proof.
  induction s as [|c s IH]; intros H.
  - cbn [includes] in H. apply orb_false_iff in H. destruct H as [H _].
    cbn [replace_first]. rewrite H. reflexivity.
  - apply includes_cons in H. destruct H as [H1 H2].
    cbn [replace_first]. rewrite H1, (IH H2). reflexivity.
Qed.

End ApiBaseFacts.

Section ApiBaseProperties.

Import ApiBase.

(** X16: on a Codespaces host, with no VITE_API_URL, the base URL is the
    address of the page with the first [-3000.] of the host name turned
    into [-8000.]: for the host name [a-3000.b], where [a] does not hold
    [-3000.], it is the protocol, two slashes and [a-8000.b]. *)
Theorem codespaces_port_is_swapped :
  forall (url : option jsstring) (location : Location) (a b : jsstring),
    url = None \/ url = Some [] ->
    hostname location = a ++ str "-3000." ++ b ->
    includes a (str "-3000.") = false ->
    includes (hostname location) (str ".app.github.dev")
    || includes (hostname location) (str ".githubpreview.dev") = true ->
    getAPIBaseURL {| VITE_API_URL := url; window := Some location |}
    = protocol location ++ str "//" ++ a ++ str "-8000." ++ b.
Proof.
  intros url location a b Hurl Hhost Ha Hcs.
  unfold getAPIBaseURL. cbn [VITE_API_URL window].
  rewrite Hcs, Hhost, (replace_first_port a b Ha).
  destruct Hurl as [-> | ->]; reflexivity.
Qed.

Lemma codespaces_port_is_swapped_witness :
  getAPIBaseURL
    {| VITE_API_URL := None;
       window :=
         Some {| hostname := str "me-repo-x7-3000.app.github.dev";
                 protocol := str "https:" |} |}
  = str "https://me-repo-x7-8000.app.github.dev".
Proof.
  refine (codespaces_port_is_swapped None
            {| hostname := str "me-repo-x7-3000.app.github.dev";
               protocol := str "https:" |}
            (str "me-repo-x7") (str "app.github.dev") _ _ _ _).
  - left; reflexivity.
  - reflexivity.
  - reflexivity.
  - reflexivity.
Defined.

(** X17: on a Codespaces host whose name does not hold [-3000.], with no
    VITE_API_URL, nothing is replaced: the base URL is the address of the
    page itself. *)
Theorem codespaces_without_port_is_own_origin :
  forall (url : option jsstring) (location : Location),
    url = None \/ url = Some [] ->
    includes (hostname location) (str "-3000.") = false ->
    includes (hostname location) (str ".app.github.dev")
    || includes (hostname location) (str ".githubpreview.dev") = true ->
    getAPIBaseURL {| VITE_API_URL := url; window := Some location |}
    = protocol location ++ str "//" ++ hostname location.
Proof.
  intros url location Hurl Hp Hcs.
  unfold getAPIBaseURL. cbn [VITE_API_URL window].
  rewrite Hcs, (replace_first_absent _ _ _ Hp).
  destruct Hurl as [-> | ->]; reflexivity.
Qed.

Lemma codespaces_without_port_is_own_origin_witness :
  getAPIBaseURL
    {| VITE_API_URL := Some [];
       window :=
         Some {| hostname := str "me-repo-x7-5173.app.github.dev";
                 protocol := str "https:" |} |}
  = str "https://me-repo-x7-5173.app.github.dev".
Proof.
  refine (codespaces_without_port_is_own_origin (Some [])
            {| hostname := str "me-repo-x7-5173.app.github.dev";
               protocol := str "https:" |} _ _ _).
  - right; reflexivity.
  - reflexivity.
  - reflexivity.
Defined.

End ApiBaseProperties.

(** * The calls that read a JSON reply *)

Section ApiProperties.

Import Api.

(** X18: [generateGhostSuggestion] never lets an error out, and it gives a
    suggestion in one case only: the reply has a success status, its body
    is JSON, and the [suggestion] of the body is a string that is not
    blank; the suggestion then carries that string and the cursor position
    it was asked for.  It is what the settlement of the call tells the
    event loop of the editor. *)
Theorem suggestion_only_from_good_reply :
  forall (fetched : Fetched) (cursorPosition : N)
         (g : Editor.GhostSuggestion),
    (generateGhostSuggestion fetched cursorPosition = Some g
     <-> exists response data s,
           fetched = Replied response
           /\ reply_ok response = true
           /\ JSON.parse (reply_text response) = Some data
           /\ get_property (str "suggestion") data = Some (JSON.String s)
           /\ trim s <> []
           /\ g = {| Editor.text := s; Editor.position := cursorPosition |})
    /\ generateGhostSuggestion fetched cursorPosition
       = Editor.generateGhostSuggestion_result (settled fetched)
           cursorPosition.
Proof.
  intros fetched pos g. split.
  - unfold generateGhostSuggestion, getGhostSuggestion, fetchAPI, json.
    split.
    + destruct fetched as [reason|response]; [discriminate|].
      destruct (reply_ok response) eqn:Ok; [|discriminate]. cbn [negb].
      destruct (JSON.parse (reply_text response)) as [data|] eqn:P;
        [|discriminate].
      destruct (get_property (str "suggestion") data) as [v|] eqn:G;
        [|discriminate].
      destruct (JSON.truthy v); [|discriminate].
      destruct v as [| | | |s| |]; try discriminate.
      cbn [JSON.truthy].
      destruct (jsstring_eqb (trim s) []) eqn:T; [discriminate|].
      intros H; injection H as <-.
      exists response, data, s. repeat split; auto.
      intros E. rewrite E in T. discriminate T.
    + intros (response & data & s & -> & Ok & P & G & T & ->).
      rewrite Ok. cbn [negb]. rewrite P, G. cbn [JSON.truthy].
      assert (Ts : jsstring_eqb (trim s) [] = false).
      { destruct (jsstring_eqb (trim s) []) eqn:E; [|reflexivity].
        apply jsstring_eqb_eq in E. contradiction. }
      assert (Ss : jsstring_eqb s [] = false).
      { destruct s; [|reflexivity]. exfalso. apply T. reflexivity. }
      rewrite Ts, Ss. reflexivity.
  - unfold generateGhostSuggestion, settled,
      Editor.generateGhostSuggestion_result.
    destruct (getGhostSuggestion fetched) as [v|e]; [|reflexivity].
    destruct v as [| |b|m e|s|es|ps]; try reflexivity.
    + destruct b; reflexivity.
    + cbn [JSON.truthy]. destruct (JSON.number_is_zero m e); reflexivity.
    + cbn [JSON.truthy]. destruct (jsstring_eqb s []); reflexivity.
Qed.

Lemma suggestion_only_from_good_reply_witness :
  generateGhostSuggestion
    (Replied {| reply_ok := true; reply_statusText := str "OK";
                reply_text :=
                  str "{" ++ Stream.quoted (str "suggestion") ++ str ":"
                  ++ Stream.quoted (str " next") ++ str "}" |}) 7
  = Some {| Editor.text := str " next"; Editor.position := 7 |}.
Proof.
  apply (proj1 (suggestion_only_from_good_reply _ 7 _)).
  eexists _, (JSON.Object [(str "suggestion", JSON.String (str " next"))]),
    (str " next").
  split; [reflexivity|]. split; [reflexivity|].
  split; [vm_compute; reflexivity|]. split; [reflexivity|].
  split; [vm_compute; discriminate|reflexivity].
Defined.

(** X19: [healthCheck] is true in one case only: the reply has a success
    status, its body is JSON, and the [status] of the body is the string
    [healthy]; a rejected fetch, a failure status, a body that is not JSON
    and a body that is [null] all give false, and no error. *)
Theorem healthy_only_from_good_reply :
  forall fetched : Fetched,
    healthCheck fetched = true
    <-> exists response data,
          fetched = Replied response
          /\ reply_ok response = true
          /\ JSON.parse (reply_text response) = Some data
          /\ get_property (str "status") data
             = Some (JSON.String (str "healthy")).
Proof.
  intros fetched. unfold healthCheck, fetchAPI, json. split.
  - destruct fetched as [reason|response]; [discriminate|].
    destruct (reply_ok response) eqn:Ok; [|discriminate]. cbn [negb].
    destruct (JSON.parse (reply_text response)) as [data|] eqn:P;
      [|discriminate].
    destruct (get_property (str "status") data) as [v|] eqn:G;
      [|discriminate].
    destruct v as [| | | |s| |]; try discriminate.
    intros H. apply jsstring_eqb_eq in H. subst s.
    exists response, data. auto.
  - intros (response & data & -> & Ok & P & G).
    rewrite Ok. cbn [negb]. rewrite P, G. reflexivity.
Qed.

Lemma healthy_only_from_good_reply_witness :
  healthCheck
    (Replied {| reply_ok := true; reply_statusText := str "OK";
                reply_text :=
                  str "{" ++ Stream.quoted (str "status") ++ str ":"
                  ++ Stream.quoted (str "healthy") ++ str "}" |})
  = true.
Proof.
  apply (proj2 (healthy_only_from_good_reply _)).
  eexists _, (JSON.Object [(str "status", JSON.String (str "healthy"))]).
  split; [reflexivity|]. split; [reflexivity|].
  split; [vm_compute; reflexivity|reflexivity].
Defined.

End ApiProperties.
